(** * Ballistic dynamics engine: BallisticSimulator

    A shallow embedding of the class [BallisticSimulator] of
    [Ballistics-MatrixInverses/Ballistic simulation.py].

    Numbers.  The program computes with double precision floats through
    numpy.  Its algebra is stated on the exact reading of the code: every
    scalar an exact rational ([Q], compared with [==]), with rounding,
    overflow and NaN left out.  What the design says about tolerances is
    judged on the binary64 reading, module [F64], where the same methods
    run on primitive floats.  In the exact reading
    arrays of a fixed shape are tuples: a 2-vector is a pair, a 4-vector is
    a pair of 2-vectors (position block, velocity block), a 4x4 matrix is
    four 2x2 blocks, as [np.block] builds it.

    Exceptions.  A Python call that can raise returns a [result]. *)

From Stdlib Require Import ZArith QArith Qabs Qfield Lqa.
From Stdlib Require String.
From Stdlib Require Floats.PrimFloat.
Import String.StringSyntax.
From Stdlib Require Import List Arith Lia Setoid Morphisms.
Import ListNotations.

Set Implicit Arguments.

Local Open Scope Q_scope.

(** ** Python exceptions *)

Module Py.

Inductive exn : Type :=
| ZeroDivisionError   (* float division by zero *)
| TypeError           (* subscripting an int *)
| IndexError          (* array index out of bounds *)
| LinAlgError         (* numpy.linalg: singular matrix *)
| ValueError.         (* raised by calculate_optimal_v0 *)

Inductive result (A : Type) : Type :=
| Ok (a : A)
| Raise (e : exn).

Arguments Ok {A} a.
Arguments Raise {A} e.

Definition bind {A B} (r : result A) (k : A -> result B) : result B :=
  match r with
  | Ok a => k a
  | Raise e => Raise e
  end.

(** [try: r except e => h]: the handler replaces exception [e] only. *)
Definition try_except {A} (r : result A) (e : exn) (h : result A) : result A :=
  match r with
  | Ok a => Ok a
  | Raise e' =>
      match e, e' with
      | ZeroDivisionError, ZeroDivisionError
      | TypeError, TypeError
      | IndexError, IndexError
      | LinAlgError, LinAlgError
      | ValueError, ValueError => h
      | _, _ => Raise e'
      end
  end.

(** Python float division. *)
Definition truediv (a b : Q) : result Q :=
  if Qeq_bool b 0 then Raise ZeroDivisionError else Ok (a / b).

End Py.

Import Py.

Notation "x <- r ;; k" := (Py.bind r (fun x => k))
  (at level 61, r at next level, right associativity).
Notation "' p <- r ;; k" := (Py.bind r (fun p => k))
  (at level 61, p pattern, r at next level, right associativity).

(** ** The numpy operations the simulator calls *)

Module Np.

Definition vec2 : Type := Q * Q.
(** A 4-vector [np.concatenate([a, c])]: rows 0-1 and rows 2-3. *)
Definition vec4 : Type := vec2 * vec2.
(** A 2x2 matrix, by rows. *)
Definition mat2 : Type := vec2 * vec2.
(** A 4x4 matrix [np.block([[M11, M12], [M21, M22]])]. *)
Record mat4 : Type := block { ul : mat2; ur : mat2; ll : mat2; lr : mat2 }.

(** [np.zeros(2)], [np.zeros((2, 2))], [np.eye(2)] *)
Definition zeros2 : vec2 := (0, 0).
Definition zeros22 : mat2 := ((0, 0), (0, 0)).
Definition eye2 : mat2 := ((1, 0), (0, 1)).

(** Elementwise operations and scaling. *)
Definition vadd (a c : vec2) : vec2 := (fst a + fst c, snd a + snd c).
Definition vsub (a c : vec2) : vec2 := (fst a - fst c, snd a - snd c).
Definition vscale (s : Q) (a : vec2) : vec2 := (s * fst a, s * snd a).
Definition mscale (s : Q) (M : mat2) : mat2 := (vscale s (fst M), vscale s (snd M)).
Definition madd (M N : mat2) : mat2 := (vadd (fst M) (fst N), vadd (snd M) (snd N)).

(** [M @ v] and [M @ N] for 2x2 blocks: each entry is a dot product. *)
Definition dot (a c : vec2) : Q := fst a * fst c + snd a * snd c.
Definition matvec2 (M : mat2) (v : vec2) : vec2 := (dot (fst M) v, dot (snd M) v).
Definition col1 (M : mat2) : vec2 := (fst (fst M), fst (snd M)).
Definition col2 (M : mat2) : vec2 := (snd (fst M), snd (snd M)).
Definition matmul2 (M N : mat2) : mat2 :=
  ((dot (fst M) (col1 N), dot (fst M) (col2 N)),
   (dot (snd M) (col1 N), dot (snd M) (col2 N))).

(** 4-vectors and 4x4 matrices, blockwise. *)
Definition concatenate (a c : vec2) : vec4 := (a, c).
Definition vadd4 (x y : vec4) : vec4 := (vadd (fst x) (fst y), vadd (snd x) (snd y)).
Definition zeros4 : vec4 := (zeros2, zeros2).
Definition eye4 : mat4 := block eye2 zeros22 zeros22 eye2.

Definition matvec (M : mat4) (x : vec4) : vec4 :=
  (vadd (matvec2 (ul M) (fst x)) (matvec2 (ur M) (snd x)),
   vadd (matvec2 (ll M) (fst x)) (matvec2 (lr M) (snd x))).

Definition matmul (M N : mat4) : mat4 :=
  block (madd (matmul2 (ul M) (ul N)) (matmul2 (ur M) (ll N)))
        (madd (matmul2 (ul M) (ur N)) (matmul2 (ur M) (lr N)))
        (madd (matmul2 (ll M) (ul N)) (matmul2 (lr M) (ll N)))
        (madd (matmul2 (ll M) (ur N)) (matmul2 (lr M) (lr N))).

(** [np.linalg.matrix_power(M, n)] for [n >= 0], by its contract: the
    n-fold product, the identity for [n = 0]. *)
Fixpoint matrix_power (M : mat4) (n : nat) : mat4 :=
  match n with
  | O => eye4
  | S k => matmul (matrix_power M k) M
  end.

(** [np.linalg.inv] of a 2x2 matrix: [LinAlgError] on a singular one. *)
Definition det2 (M : mat2) : Q :=
  fst (fst M) * snd (snd M) - snd (fst M) * fst (snd M).

Definition inv (M : mat2) : result mat2 :=
  if Qeq_bool (det2 M) 0 then Raise LinAlgError
  else Ok (mscale (/ det2 M)
             ((snd (snd M), - snd (fst M)), (- fst (snd M), fst (fst M)))).

(** Slices [x[:2]], [F[:2, :2]], [F[:2, 2:]]. *)
Definition top2 (x : vec4) : vec2 := fst x.

(** Python's builtin [sum] over 4-vectors: it starts from the int [0],
    which stays an int when there is nothing to add. *)
Inductive pysum : Type :=
| PyInt0
| PyArr (v : vec4).

Definition sum (l : list vec4) : pysum :=
  match l with
  | [] => PyInt0
  | v :: vs => PyArr (fold_left vadd4 vs (vadd4 zeros4 v))
  end.

Definition top2_of (s : pysum) : result vec2 :=
  match s with
  | PyInt0 => Raise TypeError
  | PyArr v => Ok (top2 v)
  end.

End Np.

Import Np.

(** ** class BallisticSimulator *)

Module Ballistic.

(** The dict [params] built by the input form.  ['T'] is a step count:
    the form accepts 1..1000, and a count below zero is not modelled. *)
Record Params : Type := mkParams {
  p0 : vec2;
  v0 : vec2;
  w : vec2;
  eta : Q;
  m : Q;
  g : vec2;
  h : Q;
  T : nat;
  label : option String.string
}.

(** [params] with the key ['v0'] replaced. *)
Definition with_v0 (params : Params) (v : vec2) : Params :=
  mkParams (p0 params) v (w params) (eta params) (m params) (g params)
           (h params) (T params) (label params).

(** The domain the input form promises (section 3 of the design):
    [get_params] rejects [m <= 0] and [h <= 0], the entry validators keep
    [eta] and [T] in range. *)
Definition valid (params : Params) : Prop :=
  0 < m params /\ 0 < h params /\ (1 <= T params)%nat /\ 0 <= eta params.

(** [compute_dynamics] *)
Definition compute_dynamics (params : Params) : result (mat4 * vec4) :=
  let h := h params in
  let m := m params in
  let eta := eta params in
  let w := w params in
  let g := g params in
  let I := eye2 in
  let hI := mscale h I in
  q <- truediv (h * eta) m ;;
  let drag_factor := 1 - q in
  let A := block I hI zeros22 (mscale drag_factor I) in
  r <- truediv eta m ;;
  let b := concatenate zeros2 (vscale h (vadd g (vscale r w))) in
  Ok (A, b).

(** [trajectory[t] = row]: numpy refuses an index outside the array. *)
Fixpoint setitem (trajectory : list vec2) (t : nat) (row : vec2)
  : result (list vec2) :=
  match trajectory, t with
  | [], _ => Raise IndexError
  | _ :: rest, O => Ok (row :: rest)
  | r :: rest, S t' => rest' <- setitem rest t' row ;; Ok (r :: rest')
  end.

(** One pass of the loop body: [x = A @ x + b]. *)
Definition step (A : mat4) (b : vec4) (x : vec4) : vec4 :=
  vadd4 (matvec A x) b.

(** The [for t in range(1, T + 1)] loop of [simulate], threading the
    state [x] and the array [trajectory]. *)
Fixpoint simulate_loop (A : mat4) (b : vec4) (ts : list nat)
         (x : vec4) (trajectory : list vec2) : result (vec4 * list vec2) :=
  match ts with
  | [] => Ok (x, trajectory)
  | t :: ts' =>
      let x := step A b x in
      trajectory <- setitem trajectory t (top2 x) ;;
      simulate_loop A b ts' x trajectory
  end.

(** [simulate], keeping the final state [x] next to the trajectory. *)
Definition simulate_state (params : Params) : result (vec4 * list vec2) :=
  ' (A, b) <- compute_dynamics params ;;
  let x := concatenate (p0 params) (v0 params) in
  let trajectory := repeat zeros2 (T params + 1) in
  trajectory <- setitem trajectory 0 (p0 params) ;;
  simulate_loop A b (seq 1 (T params)) x trajectory.

Definition simulate (params : Params) : result (list vec2) :=
  ' (_, trajectory) <- simulate_state params ;;
  Ok trajectory.

(** [calculate_optimal_v0] *)
Definition calculate_optimal_v0 (params : Params) (target : vec2)
  : result vec2 :=
  ' (A, b) <- compute_dynamics params ;;
  let T := T params in
  let F := matrix_power A T in
  let j := sum (map (fun k => matvec (matrix_power A k) b) (seq 0 T)) in
  let C := ur F in
  j2 <- top2_of j ;;
  let d := vadd (matvec2 (ul F) (p0 params)) j2 in
  try_except
    (Cinv <- inv C ;; Ok (matvec2 Cinv (vsub target d)))
    LinAlgError
    (Raise ValueError).

(** The simulator object: the registry [self.simulations] and the colour
    cycle read from matplotlib at construction. *)
Record BallisticSimulator : Type := mkSimulator {
  simulations : list Params;
  color_cycle : list String.string
}.

Definition init (colors : list String.string) : BallisticSimulator :=
  mkSimulator [] colors.

Definition add_simulation (self : BallisticSimulator) (params : Params)
  : BallisticSimulator :=
  mkSimulator (simulations self ++ [params]) (color_cycle self).

Definition clear_simulations (self : BallisticSimulator)
  : BallisticSimulator :=
  mkSimulator [] (color_cycle self).

End Ballistic.


Import Ballistic.

(** ** Equality of arrays up to [==] on their entries *)

Definition veq2 (a c : vec2) : Prop := fst a == fst c /\ snd a == snd c.
Definition veq4 (x y : vec4) : Prop := veq2 (fst x) (fst y) /\ veq2 (snd x) (snd y).
(** A 2x2 block is compared as its two rows. *)
Abbreviation meq2 := veq4 (only parsing).
Definition meq4 (M N : mat4) : Prop :=
  meq2 (ul M) (ul N) /\ meq2 (ur M) (ur N) /\ meq2 (ll M) (ll N) /\ meq2 (lr M) (lr N).

(** [M.tolist()]: the sixteen entries of a block matrix, row by row. *)
Definition tolist (M : mat4) : list (list Q) :=
  [ [fst (fst (ul M)); snd (fst (ul M)); fst (fst (ur M)); snd (fst (ur M))];
    [fst (snd (ul M)); snd (snd (ul M)); fst (snd (ur M)); snd (snd (ur M))];
    [fst (fst (ll M)); snd (fst (ll M)); fst (fst (lr M)); snd (fst (lr M))];
    [fst (snd (ll M)); snd (snd (ll M)); fst (snd (lr M)); snd (snd (lr M))] ].

Definition tolist4 (x : vec4) : list Q :=
  [fst (fst x); snd (fst x); fst (snd x); snd (snd x)].

(** ** The design's view of the engine *)

(** The state after [t] applications of [x_{t+1} = A x_t + b]. *)
Definition recurrence (A : mat4) (b : vec4) (x0 : vec4) (t : nat) : vec4 :=
  Nat.iter t (step A b) x0.

(** The positions of the states [x_0 .. x_T]. *)
Definition positions (A : mat4) (b : vec4) (x0 : vec4) (T : nat) : list vec2 :=
  map (fun t => top2 (recurrence A b x0 t)) (seq 0 (T + 1)).

(** The two quantities the solver accumulates, as written in
    [calculate_optimal_v0]: [F = A^T] and [j = sum(A^k @ b for k in range(T))]. *)
Definition F_of (A : mat4) (T : nat) : mat4 := matrix_power A T.
Definition j_of (A : mat4) (b : vec4) (T : nat) : pysum :=
  sum (map (fun k => matvec (matrix_power A k) b) (seq 0 T)).

(** [j] for a horizon [S n], where the sum is an array. *)
Definition j_arr (A : mat4) (b : vec4) (n : nat) : vec4 :=
  fold_left vadd4 (map (fun k => matvec (matrix_power A k) b) (seq 1 n))
    (vadd4 zeros4 (matvec (matrix_power A 0) b)).

(** The sensitivity block [C = F[:2, 2:]] the solver inverts. *)
Definition sensitivity (params : Params) : result mat2 :=
  ' (A, b) <- compute_dynamics params ;;
  Ok (ur (matrix_power A (T params))).

(** The matrix and vector of section 3 of the design, entry by entry:
    [A = [[I, h I], [0, (1 - h eta / m) I]]], [b = [0, h (g + (eta / m) w)]]. *)
Definition drag_factor (params : Params) : Q :=
  1 - h params * eta params / m params.

Definition design_A (params : Params) : list (list Q) :=
  let h := h params in
  let d := drag_factor params in
  [ [1; 0; h; 0];
    [0; 1; 0; h];
    [0; 0; d; 0];
    [0; 0; 0; d] ].

Definition design_b (params : Params) : list Q :=
  let r := eta params / m params in
  [ 0; 0;
    h params * (fst (g params) + r * fst (w params));
    h params * (snd (g params) + r * snd (w params)) ].

(** The same pair in the block form [compute_dynamics] returns. *)
Definition dynamics_A (params : Params) : mat4 :=
  block eye2 (mscale (h params) eye2) zeros22 (mscale (drag_factor params) eye2).

Definition dynamics_b (params : Params) : vec4 :=
  concatenate zeros2
    (vscale (h params)
       (vadd (g params) (vscale (eta params / m params) (w params)))).

(** The entry [F[0, 2]] of [A^n]: [h (1 + d + ... + d^(n-1))]. *)
Fixpoint reach (h d : Q) (n : nat) : Q :=
  match n with
  | O => 0
  | S k => h + reach h d k * d
  end.

(** The entry [F[2, 2]] of [A^n]: the velocity retained after [n] steps. *)
Fixpoint decay (d : Q) (n : nat) : Q :=
  match n with
  | O => 1
  | S k => decay d k * d
  end.

(** [params] with the key ['T'] replaced: the same shot, another horizon. *)
Definition with_T (params : Params) (t : nat) : Params :=
  mkParams (p0 params) (v0 params) (w params) (eta params) (m params)
           (g params) (h params) t (label params).

(** The solver's failure as the design words it: whenever the determinant
    of [C] is below the tolerance, the solver raises. *)
Definition raises_below (tol : Q) : Prop :=
  forall params target C,
    valid params ->
    sensitivity params = Ok C ->
    Qabs (det2 C) < tol ->
    calculate_optimal_v0 params target = Raise ValueError.

(** Sample inputs. *)
Definition shot : Params :=
  mkParams (0, 0) (3, 4) (0, 0) 0 1 (0, -(10)) 1 2 None.
Definition shot_drag : Params :=
  mkParams (0, 0) (3, 4) (1, 0) 3 1 (0, -(10)) 1 3 None.
Definition shot_singular : Params :=
  mkParams (0, 0) (3, 4) (0, 0) 2 1 (0, -(10)) 1 2 None.
Definition shot_fine : Params :=
  mkParams (0, 0) (3, 4) (0, 0) 0 1 (0, -(10)) (1 # 1000) 1 None.

(** ** class BallisticGUI: plot_trajectories *)

Module Gui.

(** The legend text [params.get('label', f"... {i + 1}")]: the label of
    the record, or the default text, kept as the number it prints. *)
Inductive legend : Type :=
| Label (s : String.string)
| Numbered (n : nat).

(** The calls made on the axes, in the order they are made.  Line width,
    z-order, dash style and the text of the annotation are fixed by the
    arguments kept here. *)
Inductive drawn : Type :=
| Plot (xs ys : list Q) (color : String.string) (label : legend)
| Scatter (end_point : vec2) (color : String.string)
| Annotate (end_point : vec2) (color : String.string)
| Axhline (max_height : Q) (color : String.string).

(** What the user gets to see of one pass: a call on the axes, or the
    error box of the [except Exception] handler. *)
Inductive event : Type :=
| Draw (d : drawn)
| ShowError (e : exn).

(** [color_cycle[i % len(color_cycle)]] *)
Definition color_at (self : BallisticSimulator) (i : nat)
  : result String.string :=
  match length (color_cycle self) with
  | O => Raise ZeroDivisionError
  | S _ =>
      match nth_error (color_cycle self) (i mod length (color_cycle self)) with
      | Some color => Ok color
      | None => Raise IndexError
      end
  end.

(** [traj[-1]] *)
Definition last_row (traj : list vec2) : result vec2 :=
  match rev traj with
  | [] => Raise IndexError
  | row :: _ => Ok row
  end.

(** [ys.max()]: numpy refuses an empty array. *)
Definition amax (ys : list Q) : result Q :=
  match ys with
  | [] => Raise ValueError
  | y :: rest => Ok (fold_left (fun a c => if Qle_bool a c then c else a) rest y)
  end.

(** The body of the loop for the record at index [i]: the calls made
    before an exception stay on the axes, the handler shows the error and
    the loop goes on with the next record. *)
Definition plot_one (self : BallisticSimulator) (i : nat) (params : Params)
  : list event :=
  match simulate params with
  | Raise e => [ShowError e]
  | Ok traj =>
      match color_at self i with
      | Raise e => [ShowError e]
      | Ok color =>
          let label :=
            match label params with
            | Some s => Label s
            | None => Numbered (i + 1)
            end in
          Draw (Plot (map fst traj) (map snd traj) color label) ::
          match last_row traj with
          | Raise e => [ShowError e]
          | Ok end_point =>
              Draw (Scatter end_point color) ::
              Draw (Annotate end_point color) ::
              match amax (map snd traj) with
              | Raise e => [ShowError e]
              | Ok max_height => [Draw (Axhline max_height color)]
              end
          end
      end
  end.

(** [for i, params in enumerate(...)], from index [i] on. *)
Fixpoint plot_from (self : BallisticSimulator) (i : nat)
         (sims : list Params) : list event :=
  match sims with
  | [] => []
  | params :: rest => plot_one self i params ++ plot_from self (S i) rest
  end.

(** The loop of [plot_trajectories], after [self.ax.clear()].  The calls
    that follow the loop (axis labels, title, legend, grid, axis scaling,
    [canvas.draw]) take nothing from the records and are not listed. *)
Definition plot_trajectories (self : BallisticSimulator) : list event :=
  plot_from self 0 (simulations self).

End Gui.

Import Gui.

(** ** Readings of a plot *)

(** The colours of the curves, in the order they were plotted. *)
Fixpoint plot_colors (events : list event) : list String.string :=
  match events with
  | [] => []
  | Draw (Plot _ _ color _) :: rest => color :: plot_colors rest
  | _ :: rest => plot_colors rest
  end.

(** The errors shown. *)
Fixpoint shown_errors (events : list event) : list exn :=
  match events with
  | [] => []
  | ShowError e :: rest => e :: shown_errors rest
  | _ :: rest => shown_errors rest
  end.

(** ** Closed forms without drag *)

(** [params] with the key ['p0'] replaced. *)
Definition with_p0 (params : Params) (p : vec2) : Params :=
  mkParams p (v0 params) (w params) (eta params) (m params) (g params)
           (h params) (T params) (label params).

Definition Qnat (n : nat) : Q := inject_Z (Z.of_nat n).

(** [t (t - 1) / 2]: how many times a step of gravity has been carried
    forward into the position after [t] steps. *)
Definition carried (t : nat) : Q := Qnat t * (Qnat t - 1) * (1 # 2).

(** The discrete projectile formula: [p0 + t h v0 + (t (t - 1) / 2) h^2 g]. *)
Definition free_flight (params : Params) (t : nat) : vec2 :=
  vadd (vadd (p0 params) (vscale (Qnat t * h params) (v0 params)))
       (vscale (carried t * (h params * h params)) (g params)).

(** The velocity that formula asks for to be over [target] after [T] steps. *)
Definition free_flight_v0 (params : Params) (target : vec2) : vec2 :=
  vsub (vscale (/ (Qnat (T params) * h params)) (vsub target (p0 params)))
       (vscale ((Qnat (T params) - 1) * (1 # 2) * h params) (g params)).

(** More sample inputs. *)
Definition shot_massless : Params :=
  mkParams (0, 0) (3, 4) (0, 0) 0 0 (0, -(10)) 1 2 None.
Definition shot_still : Params :=
  mkParams (1, 2) (3, 4) (0, 0) 0 1 (0, -(10)) 1 0 None.
Definition shot_windy : Params :=
  mkParams (0, 0) (3, 4) (1, 0) 1 2 (0, -(10)) 1 3 None.

(** A simulator with two colours and three records kept. *)
Local Open Scope string_scope.
Definition two_colors : list String.string := ["tab:blue"; "tab:orange"].
Local Close Scope string_scope.

Definition studio : BallisticSimulator :=
  mkSimulator [shot; shot_windy; shot_drag] two_colors.

(** ** The engine in binary64

    The same three methods with every scalar a binary64 float, as numpy
    and Python compute them, for the statements that are about rounding.
    Arrays are lists, a matrix is the list of its rows.  Each dot product
    of [@] is accumulated from [0.] in index order, each product and each
    sum rounded once; [np.linalg.matrix_power] squares and multiplies as
    numpy does; [np.linalg.inv] of a 2x2 matrix eliminates with partial
    pivoting and fails on an exact zero pivot, as LAPACK's [gesv] does.
    Every row of the matrices this program builds has at most one nonzero
    entry off the diagonal, so a dot product adds at most two nonzero
    products and the order of accumulation does not change it; the block
    [C] is diagonal, so its inverse is the reciprocal of each diagonal
    entry. *)

Module F64.

Import PrimFloat.
Local Open Scope float_scope.

Definition array : Type := list float.
Definition matrix : Type := list array.

Record Params : Type := mkParams {
  p0 : array;
  v0 : array;
  w : array;
  eta : float;
  m : float;
  g : array;
  h : float;
  T : nat;
  label : option String.string
}.

Definition with_v0 (params : Params) (v : array) : Params :=
  mkParams (p0 params) v (w params) (eta params) (m params) (g params)
           (h params) (T params) (label params).

Definition with_T (params : Params) (t : nat) : Params :=
  mkParams (p0 params) (v0 params) (w params) (eta params) (m params)
           (g params) (h params) t (label params).

(** Python float division. *)
Definition truediv (a b : float) : result float :=
  if b =? 0 then Raise ZeroDivisionError else Ok (a / b).

(** [np.eye(n)], [np.zeros(n)], [np.zeros((r, c))] *)
Definition eye (n : nat) : matrix :=
  map (fun i => map (fun j => if Nat.eqb i j then 1 else 0) (seq 0 n))
      (seq 0 n).
Definition zeros (n : nat) : array := repeat 0 n.
Definition zeros2d (r c : nat) : matrix := repeat (zeros c) r.

(** Elementwise operations on arrays of one shape. *)
Fixpoint zip_with (f : float -> float -> float) (a c : array) : array :=
  match a, c with
  | x :: a', y :: c' => f x y :: zip_with f a' c'
  | _, _ => []
  end.
Definition vadd : array -> array -> array := zip_with add.
Definition vsub : array -> array -> array := zip_with sub.
Definition scale (s : float) (a : array) : array := map (fun x => s * x) a.
Definition mscale (s : float) (M : matrix) : matrix := map (scale s) M.

(** [np.concatenate] and [np.block([[M11, M12], [M21, M22]])] *)
Definition concatenate (a c : array) : array := a ++ c.
Fixpoint hstack (M N : matrix) : matrix :=
  match M, N with
  | r :: M', s :: N' => (r ++ s) :: hstack M' N'
  | _, _ => []
  end.
Definition block (M11 M12 M21 M22 : matrix) : matrix :=
  hstack M11 M12 ++ hstack M21 M22.

(** [M @ x] and [M @ N] *)
Definition dot (r x : array) : float := fold_left add (zip_with mul r x) 0.
Definition matvec (M : matrix) (x : array) : array :=
  map (fun r => dot r x) M.
Definition column (N : matrix) (j : nat) : array := map (fun r => nth j r 0) N.
Definition matmul (M N : matrix) : matrix :=
  map (fun r => map (fun j => dot r (column N j))
                    (seq 0 (length (hd [] N)))) M.

(** [np.linalg.matrix_power(a, n)], [n >= 0]: the identity, the short
    cuts for 1, 2 and 3, and the loop over the bits of [n] from the lowest,
    [z] the running square and [acc] the running result. *)
Fixpoint power_bits (z : matrix) (acc : option matrix) (bits : positive)
  : matrix :=
  let acc' := match acc with None => z | Some r => matmul r z end in
  match bits with
  | xH => acc'
  | xO bits' => power_bits (matmul z z) acc bits'
  | xI bits' => power_bits (matmul z z) (Some acc') bits'
  end.

Definition matrix_power (a : matrix) (n : nat) : matrix :=
  match n with
  | 0%nat => eye (length a)
  | 1%nat => a
  | 2%nat => matmul a a
  | 3%nat => matmul (matmul a a) a
  | _ => power_bits a None (Pos.of_nat n)
  end.

(** [np.linalg.inv] of a 2x2 matrix: the rows are ordered by the larger
    entry of the first column, the second row is eliminated, and the two
    columns of the identity are solved for. *)
Definition inv (C : matrix) : result matrix :=
  match C with
  | [[a; b]; [c; d]] =>
      let swap := abs a <? abs c in
      let '(p, q, r, s) := if swap then (c, d, a, b) else (a, b, c, d) in
      if p =? 0 then Raise LinAlgError else
      let l := r / p in
      let u := s - l * q in
      if u =? 0 then Raise LinAlgError else
      let solve (b1 b2 : float) : float * float :=
        let y2 := b2 - l * b1 in
        let x2 := y2 / u in
        ((b1 - q * x2) / p, x2) in
      let '(e1, e2) := if swap then ((0, 1), (1, 0)) else ((1, 0), (0, 1)) in
      let x := solve (fst e1) (snd e1) in
      let y := solve (fst e2) (snd e2) in
      Ok [[fst x; fst y]; [snd x; snd y]]
  | _ => Raise LinAlgError
  end.

(** Python's [sum]: from the int [0], which is what is left when there is
    nothing to add. *)
Inductive pysum : Type :=
| PyInt0
| PyArr (v : array).

Definition sum (l : list array) : pysum :=
  match l with
  | [] => PyInt0
  | v :: vs => PyArr (fold_left vadd vs (map (fun x => 0 + x) v))
  end.

(** [j[:2]] *)
Definition top2_of (s : pysum) : result array :=
  match s with
  | PyInt0 => Raise TypeError
  | PyArr v => Ok (firstn 2 v)
  end.

(** [compute_dynamics] *)
Definition compute_dynamics (params : Params) : result (matrix * array) :=
  let h := h params in
  let m := m params in
  let eta := eta params in
  let w := w params in
  let g := g params in
  let I := eye 2 in
  let hI := mscale h I in
  q <- truediv (h * eta) m ;;
  let drag_factor := 1 - q in
  let A := block I hI (zeros2d 2 2) (mscale drag_factor I) in
  r <- truediv eta m ;;
  let b := concatenate (zeros 2) (scale h (vadd g (scale r w))) in
  Ok (A, b).

(** [trajectory[t] = row] *)
Fixpoint setitem (trajectory : list array) (t : nat) (row : array)
  : result (list array) :=
  match trajectory, t with
  | [], _ => Raise IndexError
  | _ :: rest, O => Ok (row :: rest)
  | r :: rest, S t' => rest' <- setitem rest t' row ;; Ok (r :: rest')
  end.

Fixpoint simulate_loop (A : matrix) (b : array) (ts : list nat)
         (x : array) (trajectory : list array)
  : result (array * list array) :=
  match ts with
  | [] => Ok (x, trajectory)
  | t :: ts' =>
      let x := vadd (matvec A x) b in
      trajectory <- setitem trajectory t (firstn 2 x) ;;
      simulate_loop A b ts' x trajectory
  end.

(** [simulate], keeping the final state [x] next to the trajectory. *)
Definition simulate_state (params : Params) : result (array * list array) :=
  ' (A, b) <- compute_dynamics params ;;
  let x := concatenate (p0 params) (v0 params) in
  let trajectory := repeat (zeros 2) (T params + 1) in
  trajectory <- setitem trajectory 0 (p0 params) ;;
  simulate_loop A b (seq 1 (T params)) x trajectory.

Definition simulate (params : Params) : result (list array) :=
  ' (_, trajectory) <- simulate_state params ;;
  Ok trajectory.

(** [calculate_optimal_v0] *)
Definition calculate_optimal_v0 (params : Params) (target : array)
  : result array :=
  ' (A, b) <- compute_dynamics params ;;
  let T := T params in
  let F := matrix_power A T in
  let j := sum (map (fun k => matvec (matrix_power A k) b) (seq 0 T)) in
  let C := map (skipn 2) (firstn 2 F) in
  j2 <- top2_of j ;;
  let d := vadd (matvec (map (firstn 2) (firstn 2 F)) (p0 params)) j2 in
  try_except
    (Cinv <- inv C ;; Ok (matvec Cinv (vsub target d)))
    LinAlgError
    (Raise ValueError).

(** *** What the design asks of the binary64 engine *)

Definition valid (params : Params) : Prop :=
  (0 <? m params) = true /\ (0 <? h params) = true /\
  (1 <= T params)%nat /\ (0 <=? eta params) = true.

(** The tolerances of the design, [1e-6] and [1e-9], as the nearest
    floats. *)
Definition tol_abs : float := 0x1.0c6f7a0b5ed8dp-20.
Definition tol_rel : float := 0x1.12e0be826d695p-30.

(** [C = F[:2, 2:]] has a determinant that is not zero. *)
Definition invertible (params : Params) : bool :=
  match compute_dynamics params with
  | Ok (A, _) =>
      match map (skipn 2) (firstn 2 (matrix_power A (T params))) with
      | [[a; b]; [c; d]] => negb (a * d - b * c =? 0)
      | _ => false
      end
  | Raise _ => false
  end.

Fixpoint all2 (f : float -> float -> bool) (a c : array) : bool :=
  match a, c with
  | [], [] => true
  | x :: a', y :: c' => f x y && all2 f a' c'
  | _, _ => false
  end.

(** The solver returns a velocity, [simulate] with it returns, and the
    point of index [T] is within [tol] of the target in both entries. *)
Definition round_trip_within (tol : float) (params : Params) (target : array)
  : bool :=
  match calculate_optimal_v0 params target with
  | Ok v =>
      match simulate (with_v0 params v) with
      | Ok trajectory =>
          match nth_error trajectory (T params) with
          | Some hit => all2 (fun a c => abs (a - c) <=? tol) hit target
          | None => false
          end
      | Raise _ => false
      end
  | Raise _ => false
  end.

(** C1 as worded, read on the binary64 engine. *)
Definition round_trip_claim : Prop :=
  forall params target,
    valid params ->
    invertible params = true ->
    round_trip_within tol_abs params target = true.

(** The closed form of the design at horizon [t]: [F_t @ x0 + j_t], with
    [F_t] and [j_t] accumulated as [calculate_optimal_v0] does. *)
Definition closed_form (params : Params) (t : nat) : result array :=
  ' (A, b) <- compute_dynamics params ;;
  match sum (map (fun k => matvec (matrix_power A k) b) (seq 0 t)) with
  | PyInt0 => Raise TypeError
  | PyArr j =>
      Ok (vadd (matvec (matrix_power A t)
                       (concatenate (p0 params) (v0 params))) j)
  end.

(** The state of the loop of [simulate] after [t] passes is within the
    relative tolerance [tol] of the closed form, in all four entries. *)
Definition closed_form_within (tol : float) (params : Params) (t : nat)
  : bool :=
  match simulate_state (with_T params t), closed_form params t with
  | Ok (x, _), Ok y => all2 (fun a c => abs (a - c) <=? tol * abs c) x y
  | _, _ => false
  end.

(** The tolerance clause of C4 as worded, read on the binary64 engine. *)
Definition closed_form_claim : Prop :=
  forall params t,
    valid params ->
    (1 <= t <= T params)%nat ->
    closed_form_within tol_rel params t = true.

(** Sample records: gravity as the input form sets it, [(0, -9.8)]. *)
Definition gravity : array := [0; -0x1.399999999999ap+3].

(** Nearly reversed velocity: [eta = 1 - 2^-51], so that the drag factor
    is [-1 + 2^-50] and [C = 2^-50 I]. *)
Definition nearly_singular : Params :=
  mkParams [0; 0] [0; 0] [0; 0] 0x1.ffffffffffffcp-1 0.5 gravity 1 2 None.
(** The target [(1.1, 0)]. *)
Definition target_near : array := [0x1.199999999999ap+0; 0].

(** [eta = 1 - 2^-41] and [v0 = (1 + 2^-20, 0)]. *)
Definition nearly_reversed : Params :=
  mkParams [0; 0] [0x1.00001p+0; 0] [0; 0] 0x1.ffffffffffp-1 0.5 gravity
           1 2 None.

(** The scenario of the design: [h = 0.1], [T = 10], target [(5, 5)]. *)
Definition scenario : Params :=
  mkParams [0; 0] [0; 0] [0; 0] 0 1 gravity 0x1.999999999999ap-4 10 None.
Definition target_scenario : array := [5; 5].

(** [h = 3], [eta = 0.6666666666666666], [m = 1]: the product [h eta]
    rounds to 2. *)
Definition rounded_bounce : Params :=
  mkParams [0; 0] [0; 0] [0; 0] 0x1.5555555555555p-1 1 gravity 3 2 None.

(** What the traces below come to: [1.1 * 2^50] and [1]; [2^-40] and
    [2^-40 + 2^-60]. *)
Definition nearly_singular_expected : list float :=
  [1238489897526886.5; 1].
Definition nearly_reversed_expected : list float :=
  [0x1p-40; 0x1.00001p-40].

(** The first entries of the solved velocity and of the end point. *)
Definition round_trip_trace (params : Params) (target : array)
  : list float :=
  match calculate_optimal_v0 params target with
  | Ok v =>
      match simulate (with_v0 params v) with
      | Ok trajectory =>
          [hd nan v; hd nan (nth (T params) trajectory [])]
      | Raise _ => []
      end
  | Raise _ => []
  end.

(** The first entries of the loop state and of the closed form. *)
Definition closed_form_trace (params : Params) (t : nat) : list float :=
  match simulate_state (with_T params t), closed_form params t with
  | Ok (x, _), Ok y => [hd nan x; hd nan y]
  | _, _ => []
  end.

End F64.

(** ** Tactics for entrywise goals *)

Ltac np_unfold :=
  unfold meq4, veq4, veq2, step, matmul, matvec, eye4, zeros4, vadd4,
    concatenate, top2, matmul2, col1, col2, matvec2, dot, madd, mscale,
    vscale, vsub, vadd, eye2, zeros22, zeros2, det2 in *.

Ltac np_destruct :=
  repeat match goal with
    | M : mat4 |- _ => destruct M as [[[? ?] [? ?]] [[? ?] [? ?]] [[? ?] [? ?]] [[? ?] [? ?]]]
    | x : vec4 |- _ => destruct x as [[? ?] [? ?]]
    | x : mat2 |- _ => destruct x as [[? ?] [? ?]]
    | x : vec2 |- _ => destruct x as [? ?]
    end.

Ltac np_hyps :=
  repeat match goal with
    | H : _ /\ _ |- _ => destruct H
    end.

Ltac np_simpl :=
  np_destruct; np_unfold; cbn [fst snd ul ur ll lr] in *; np_hyps.

Ltac np_rewrite :=
  repeat match goal with
    | H : ?a == _ |- _ => is_var a; rewrite H; clear H
    end.

(** Split conjunctions only: [split] on an [==] would try to convert. *)
Ltac np_split := repeat match goal with |- _ /\ _ => split end.

(** Entrywise goals: polynomial identities, after rewriting with the
    entrywise hypotheses. *)
Ltac np_ring := intros; np_simpl; np_split; np_rewrite; try ring.

#[global] Instance veq2_equiv : Equivalence veq2.
Proof.
  split.
  - intros a; split; reflexivity.
  - intros a c [H1 H2]; split; symmetry; assumption.
  - intros a c e [H1 H2] [H3 H4]; split; etransitivity; eassumption.
Qed.

#[global] Instance veq4_equiv : Equivalence veq4.
Proof.
  split.
  - intros a; split; reflexivity.
  - intros a c [H1 H2]; split; symmetry; assumption.
  - intros a c e [H1 H2] [H3 H4]; split; etransitivity; eassumption.
Qed.

#[global] Instance meq4_equiv : Equivalence meq4.
Proof.
  split.
  - intros a; split; [|split; [|split]]; reflexivity.
  - intros a c (H1 & H2 & H3 & H4); split; [|split; [|split]];
      symmetry; assumption.
  - intros a c e (H1 & H2 & H3 & H4) (H5 & H6 & H7 & H8);
      split; [|split; [|split]]; etransitivity; eassumption.
Qed.

#[global] Instance vadd_proper : Proper (veq2 ==> veq2 ==> veq2) vadd.
Proof. intros a a' Ha c c' Hc. np_ring. Qed.

#[global] Instance vsub_proper : Proper (veq2 ==> veq2 ==> veq2) vsub.
Proof. intros a a' Ha c c' Hc. np_ring. Qed.

#[global] Instance matvec2_proper : Proper (veq4 ==> veq2 ==> veq2) matvec2.
Proof. intros a a' Ha c c' Hc. np_ring. Qed.

#[global] Instance vadd4_proper : Proper (veq4 ==> veq4 ==> veq4) vadd4.
Proof. intros a a' Ha c c' Hc. np_ring. Qed.

#[global] Instance madd_proper : Proper (meq2 ==> meq2 ==> meq2) madd.
Proof. intros a a' Ha c c' Hc. np_ring. Qed.

#[global] Instance matmul2_proper : Proper (meq2 ==> meq2 ==> meq2) matmul2.
Proof. intros a a' Ha c c' Hc. np_ring. Qed.

#[global] Instance matvec_proper : Proper (meq4 ==> veq4 ==> veq4) matvec.
Proof.
  intros M M' (H1 & H2 & H3 & H4) x x' [Hx1 Hx2]. unfold matvec.
  split; cbn [fst snd]; rewrite ?H1, ?H2, ?H3, ?H4, Hx1, Hx2; reflexivity.
Qed.

#[global] Instance matmul_proper : Proper (meq4 ==> meq4 ==> meq4) matmul.
Proof.
  intros M M' (H1 & H2 & H3 & H4) N N' (H5 & H6 & H7 & H8).
  unfold matmul, meq4; cbn [ul ur ll lr].
  rewrite H1, H2, H3, H4, H5, H6, H7, H8.
  np_split; reflexivity.
Qed.

#[global] Instance step_proper : Proper (meq4 ==> veq4 ==> veq4 ==> veq4) step.
Proof. intros a a' Ha c c' Hc x x' Hx. unfold step. rewrite Ha, Hc, Hx. reflexivity. Qed.

#[global] Instance top2_proper : Proper (veq4 ==> veq2) top2.
Proof. intros a a' Ha. apply Ha. Qed.

(** *** Algebra of [@] *)

Lemma matmul2_assoc (M N P : mat2) :
  meq2 (matmul2 (matmul2 M N) P) (matmul2 M (matmul2 N P)).
Proof. np_ring. Qed.

Lemma matmul2_madd_l (M N P : mat2) :
  meq2 (matmul2 (madd M N) P) (madd (matmul2 M P) (matmul2 N P)).
Proof. np_ring. Qed.

Lemma matmul2_madd_r (M N P : mat2) :
  meq2 (matmul2 M (madd N P)) (madd (matmul2 M N) (matmul2 M P)).
Proof. np_ring. Qed.

Lemma madd_swap (M N P R : mat2) :
  meq2 (madd (madd M N) (madd P R)) (madd (madd M P) (madd N R)).
Proof. np_ring. Qed.

Lemma matmul_assoc (M N P : mat4) :
  meq4 (matmul (matmul M N) P) (matmul M (matmul N P)).
Proof.
  unfold matmul, meq4; cbn [ul ur ll lr].
  rewrite !matmul2_madd_l, !matmul2_madd_r, !matmul2_assoc.
  np_split; apply madd_swap.
Qed.

Lemma matmul_eye_l (M : mat4) : meq4 (matmul eye4 M) M.
Proof. np_ring. Qed.

Lemma matmul_eye_r (M : mat4) : meq4 (matmul M eye4) M.
Proof. np_ring. Qed.

Lemma matvec_eye (x : vec4) : veq4 (matvec eye4 x) x.
Proof. np_ring. Qed.

Lemma matvec2_matmul2 (M N : mat2) (a : vec2) :
  veq2 (matvec2 (matmul2 M N) a) (matvec2 M (matvec2 N a)).
Proof. np_ring. Qed.

Lemma matvec2_madd (M N : mat2) (a : vec2) :
  veq2 (matvec2 (madd M N) a) (vadd (matvec2 M a) (matvec2 N a)).
Proof. np_ring. Qed.

Lemma matvec2_vadd (M : mat2) (a c : vec2) :
  veq2 (matvec2 M (vadd a c)) (vadd (matvec2 M a) (matvec2 M c)).
Proof. np_ring. Qed.

Lemma vadd_swap (a c e f : vec2) :
  veq2 (vadd (vadd a c) (vadd e f)) (vadd (vadd a e) (vadd c f)).
Proof. np_ring. Qed.

Lemma matvec_matmul (M N : mat4) (x : vec4) :
  veq4 (matvec (matmul M N) x) (matvec M (matvec N x)).
Proof.
  unfold matmul, matvec, veq4; cbn [ul ur ll lr fst snd].
  rewrite !matvec2_madd, !matvec2_vadd, !matvec2_matmul2.
  split; apply vadd_swap.
Qed.

Lemma matvec_vadd4 (M : mat4) (x y : vec4) :
  veq4 (matvec M (vadd4 x y)) (vadd4 (matvec M x) (matvec M y)).
Proof. np_ring. Qed.

Lemma vadd4_assoc (x y z : vec4) :
  veq4 (vadd4 (vadd4 x y) z) (vadd4 x (vadd4 y z)).
Proof. np_ring. Qed.

Lemma vadd4_comm (x y : vec4) : veq4 (vadd4 x y) (vadd4 y x).
Proof. np_ring. Qed.

Lemma vadd4_zeros_l (x : vec4) : veq4 (vadd4 zeros4 x) x.
Proof. np_ring. Qed.

#[global] Instance matrix_power_proper :
  Proper (meq4 ==> eq ==> meq4) matrix_power.
Proof.
  intros M M' HM n n' <-. induction n as [|n IH]; simpl.
  - reflexivity.
  - rewrite IH, HM. reflexivity.
Qed.

(** A matrix commutes with its own powers. *)
Lemma matrix_power_comm (M : mat4) (n : nat) :
  meq4 (matmul (matrix_power M n) M) (matmul M (matrix_power M n)).
Proof.
  induction n as [|n IH]; simpl.
  - rewrite matmul_eye_l, matmul_eye_r. reflexivity.
  - rewrite IH at 1. apply matmul_assoc.
Qed.

Lemma matrix_power_S_l (M : mat4) (n : nat) :
  meq4 (matrix_power M (S n)) (matmul M (matrix_power M n)).
Proof. simpl. apply matrix_power_comm. Qed.


(** ** compute_dynamics *)

Lemma truediv_ok (a c : Q) : ~ c == 0 -> truediv a c = Ok (a / c).
Proof.
  intros Hc. unfold truediv.
  destruct (Qeq_bool c 0) eqn:E; [|reflexivity].
  apply Qeq_bool_iff in E. contradiction.
Qed.

Lemma compute_dynamics_ok (params : Params) :
  ~ m params == 0 ->
  compute_dynamics params = Ok (dynamics_A params, dynamics_b params).
Proof.
  intros Hm. unfold compute_dynamics.
  rewrite !truediv_ok by assumption. reflexivity.
Qed.

Lemma valid_mass (params : Params) : valid params -> ~ m params == 0.
Proof. intros (Hm & _) E. rewrite E in Hm. discriminate. Qed.

Lemma compute_dynamics_with_v0 (params : Params) (v : vec2) :
  compute_dynamics (with_v0 params v) = compute_dynamics params.
Proof. reflexivity. Qed.

Lemma compute_dynamics_with_T (params : Params) (t : nat) :
  compute_dynamics (with_T params t) = compute_dynamics params.
Proof. reflexivity. Qed.

(** ** The loop of simulate *)

Section Loop.

Variables (A : mat4) (b : vec4).

Lemma setitem_app (done rest : list vec2) (old row : vec2) :
  setitem (done ++ old :: rest) (length done) row = Ok (done ++ row :: rest).
Proof.
  induction done as [|r done IH]; simpl.
  - reflexivity.
  - rewrite IH. reflexivity.
Qed.

Lemma recurrence_S (x : vec4) (t : nat) :
  recurrence A b x (S t) = step A b (recurrence A b x t).
Proof. reflexivity. Qed.

Lemma recurrence_shift (x : vec4) (t : nat) :
  recurrence A b x (S t) = recurrence A b (step A b x) t.
Proof. unfold recurrence. apply Nat.iter_succ_r. Qed.

(** Invariant of the loop: the rows before [t] are written, the rows
    from [t] on are still the zeros of [np.zeros]. *)
Lemma simulate_loop_spec (n : nat) :
  forall (done : list vec2) (x : vec4),
    simulate_loop A b (seq (length done) n) x (done ++ repeat zeros2 n)
    = Ok (recurrence A b x n,
          done ++ map (fun i => top2 (recurrence A b x i)) (seq 1 n)).
Proof.
  induction n as [|n IH]; intros done x.
  - reflexivity.
  - cbn [seq simulate_loop repeat]. rewrite setitem_app. cbn [bind].
    replace (done ++ top2 (step A b x) :: repeat zeros2 n)
      with ((done ++ [top2 (step A b x)]) ++ repeat zeros2 n)
      by (rewrite <- app_assoc; reflexivity).
    replace (S (length done)) with (length (done ++ [top2 (step A b x)]))
      by (rewrite length_app; simpl; lia).
    rewrite IH, <- recurrence_shift, <- app_assoc. do 2 f_equal.
    change (seq 1 (S n)) with (1%nat :: seq 2 n).
    rewrite <- (seq_shift n 1). cbn [app map]. rewrite map_map. do 2 f_equal.
    apply map_ext. intros i. rewrite recurrence_shift. reflexivity.
Qed.

End Loop.

Lemma positions_unfold (A : mat4) (b : vec4) (x : vec4) (n : nat) :
  positions A b x n
  = top2 x :: map (fun i => top2 (recurrence A b x i)) (seq 1 n).
Proof. unfold positions. rewrite Nat.add_1_r. reflexivity. Qed.

(** What [simulate] computes once the dynamics are built. *)
Lemma simulate_state_spec (params : Params) (A : mat4) (b : vec4) :
  compute_dynamics params = Ok (A, b) ->
  simulate_state params
  = Ok (recurrence A b (p0 params, v0 params) (T params),
        positions A b (p0 params, v0 params) (T params)).
Proof.
  intros H. unfold simulate_state. rewrite H. cbn [bind].
  rewrite Nat.add_1_r. cbn [repeat setitem bind].
  rewrite positions_unfold.
  apply (simulate_loop_spec A b (T params) [p0 params]).
Qed.

Lemma simulate_spec (params : Params) (A : mat4) (b : vec4) :
  compute_dynamics params = Ok (A, b) ->
  simulate params = Ok (positions A b (p0 params, v0 params) (T params)).
Proof.
  intros H. unfold simulate. rewrite (simulate_state_spec _ H). reflexivity.
Qed.

Lemma positions_length (A : mat4) (b : vec4) (x : vec4) (n : nat) :
  length (positions A b x n) = (n + 1)%nat.
Proof. unfold positions. rewrite length_map, length_seq. reflexivity. Qed.

Lemma positions_nth (A : mat4) (b : vec4) (x : vec4) (n t : nat) :
  (t <= n)%nat ->
  nth_error (positions A b x n) t = Some (top2 (recurrence A b x t)).
Proof.
  intros Ht. unfold positions.
  rewrite nth_error_map, nth_error_seq.
  destruct (Nat.ltb_spec t (n + 1)); [reflexivity | lia].
Qed.

(** ** The power series of calculate_optimal_v0 *)

Section Series.

Variables (A : mat4) (b : vec4).

Lemma j_of_S (n : nat) : j_of A b (S n) = PyArr (j_arr A b n).
Proof. reflexivity. Qed.

Lemma j_arr_0 : veq4 (j_arr A b 0) b.
Proof.
  unfold j_arr. cbn [seq map fold_left matrix_power].
  rewrite vadd4_zeros_l. apply matvec_eye.
Qed.

Lemma j_arr_S (n : nat) :
  j_arr A b (S n)
  = vadd4 (j_arr A b n) (matvec (matrix_power A (S n)) b).
Proof.
  unfold j_arr. rewrite seq_S, map_app, fold_left_app. reflexivity.
Qed.

(** The closed form [F x0 + j] against the recurrence, at horizon
    [S n]; the induction moves the first step into the start state. *)
Lemma closed_form_recurrence (n : nat) :
  forall x : vec4,
    veq4 (vadd4 (matvec (matrix_power A (S n)) x) (j_arr A b n))
         (recurrence A b x (S n)).
Proof.
  induction n as [|n IH]; intros x.
  - rewrite j_arr_0. cbn [matrix_power]. rewrite matmul_eye_l. reflexivity.
  - rewrite recurrence_shift, <- IH. unfold step.
    rewrite matvec_vadd4, <- matvec_matmul, j_arr_S.
    change (matmul (matrix_power A (S n)) A) with (matrix_power A (S (S n))).
    rewrite !vadd4_assoc.
    apply vadd4_proper; [reflexivity | apply vadd4_comm].
Qed.

End Series.

(** ** Powers of the dynamics matrix *)

Lemma reach_proper (h1 h2 d1 d2 : Q) (n : nat) :
  h1 == h2 -> d1 == d2 -> reach h1 d1 n == reach h2 d2 n.
Proof.
  intros Hh Hd. induction n as [|n IH]; simpl.
  - reflexivity.
  - rewrite IH, Hh, Hd. reflexivity.
Qed.

(** [A^n] keeps the block shape: [[I, reach I], [0, d^n I]]. *)
Lemma matrix_power_blocks (hh d : Q) (n : nat) :
  meq4 (matrix_power (block eye2 (mscale hh eye2) zeros22 (mscale d eye2)) n)
       (block eye2 (mscale (reach hh d n) eye2) zeros22 (mscale (decay d n) eye2)).
Proof.
  induction n as [|n IH].
  - cbn [matrix_power reach decay]. np_ring.
  - cbn [matrix_power reach decay]. rewrite IH. np_ring.
Qed.

Lemma reach_drag_free (hh d : Q) (n : nat) :
  d == 1 -> reach hh d n == inject_Z (Z.of_nat n) * hh.
Proof.
  intros Hd. induction n as [|n IH].
  - simpl. ring.
  - cbn [reach]. rewrite IH, Hd, Nat2Z.inj_succ. unfold Z.succ.
    rewrite inject_Z_plus. simpl (inject_Z 1). ring.
Qed.

(** ** The 2x2 inverse *)

Lemma inv_ok (C : mat2) :
  ~ det2 C == 0 ->
  exists Cinv, inv C = Ok Cinv /\
    forall y : vec2, veq2 (matvec2 C (matvec2 Cinv y)) y.
Proof.
  intros Hdet. unfold inv.
  destruct (Qeq_bool (det2 C) 0) eqn:E.
  - apply Qeq_bool_iff in E. contradiction.
  - eexists; split; [reflexivity|].
    intros y. np_simpl. np_split; field; assumption.
Qed.

Lemma inv_singular (C : mat2) : det2 C == 0 -> inv C = Raise LinAlgError.
Proof.
  intros Hdet. unfold inv.
  apply Qeq_bool_iff in Hdet. rewrite Hdet. reflexivity.
Qed.

(** ** calculate_optimal_v0, case by case *)

Lemma sensitivity_ok (params : Params) :
  ~ m params == 0 ->
  sensitivity params
  = Ok (ur (matrix_power (dynamics_A params) (T params))).
Proof.
  intros Hm. unfold sensitivity. rewrite compute_dynamics_ok by assumption.
  reflexivity.
Qed.

(** The vector [d] of the solver at horizon [S n]. *)
Lemma calculate_optimal_v0_cases (params : Params) (target : vec2) (n : nat) :
  ~ m params == 0 ->
  T params = S n ->
  let A := dynamics_A params in
  let F := matrix_power A (S n) in
  let d := vadd (matvec2 (ul F) (p0 params))
                (top2 (j_arr A (dynamics_b params) n)) in
  (det2 (ur F) == 0 ->
   calculate_optimal_v0 params target = Raise ValueError) /\
  (~ det2 (ur F) == 0 ->
   exists Cinv,
     inv (ur F) = Ok Cinv /\
     calculate_optimal_v0 params target = Ok (matvec2 Cinv (vsub target d))).
Proof.
  intros Hm HT A F d. unfold calculate_optimal_v0.
  rewrite compute_dynamics_ok by assumption. cbn [bind]. rewrite HT.
  fold (j_of (dynamics_A params) (dynamics_b params) (S n)).
  rewrite j_of_S. cbn [top2_of bind]. fold A F d. split; intros Hdet.
  - rewrite (inv_singular Hdet). reflexivity.
  - destruct (inv_ok Hdet) as (Cinv & HC & _).
    exists Cinv. rewrite HC. split; reflexivity.
Qed.

Lemma det2_scaled_eye (s : Q) (C : mat2) :
  meq2 C (mscale s eye2) -> det2 C == s * s.
Proof. np_ring. Qed.

(** The final position as the solver decomposes it: [C v0 + d]. *)
Lemma final_position_split (F : mat4) (p v : vec2) (j : vec4) :
  veq2 (top2 (vadd4 (matvec F (concatenate p v)) j))
       (vadd (matvec2 (ur F) v) (vadd (matvec2 (ul F) p) (top2 j))).
Proof. destruct F. np_ring. Qed.

Lemma vadd_vsub_cancel (target d : vec2) : veq2 (vadd (vsub target d) d) target.
Proof. np_ring. Qed.

(** ** Properties of the engine *)

Ltac valid_sample :=
  unfold valid; cbn;
  repeat match goal with |- _ /\ _ => split end;
  solve [reflexivity | lia | discriminate].

(** C8 (trajectory length).  For every valid parameter record, [simulate]
    returns, and the trajectory it returns has exactly [T + 1] points. *)
Theorem simulate_length (params : Params) :
  valid params ->
  exists trajectory,
    simulate params = Ok trajectory /\
    length trajectory = (T params + 1)%nat.
Proof.
  intros Hv. eexists. split.
  - apply simulate_spec, compute_dynamics_ok, valid_mass, Hv.
  - apply positions_length.
Qed.

Lemma simulate_length_witness :
  valid shot /\
  exists trajectory, simulate shot = Ok trajectory /\ length trajectory = 3%nat.
Proof.
  assert (Hv : valid shot) by valid_sample.
  split; [exact Hv | exact (simulate_length Hv)].
Defined.

(** C7 (zeroth point).  For every valid parameter record, the first point
    of the trajectory returned by [simulate] is [p0] itself: the very
    value, not one equal to it up to [==]. *)
Theorem simulate_zeroth_point (params : Params) :
  valid params ->
  exists trajectory,
    simulate params = Ok trajectory /\
    nth_error trajectory 0 = Some (p0 params).
Proof.
  intros Hv. eexists. split.
  - apply simulate_spec, compute_dynamics_ok, valid_mass, Hv.
  - rewrite positions_unfold. reflexivity.
Qed.

Lemma simulate_zeroth_point_witness :
  valid shot /\
  exists trajectory,
    simulate shot = Ok trajectory /\ nth_error trajectory 0 = Some (0, 0).
Proof.
  assert (Hv : valid shot) by valid_sample.
  split; [exact Hv | exact (simulate_zeroth_point Hv)].
Defined.

(** C6 (divergence faithfulness).  [simulate] raises on no valid
    parameter record, whatever the drag factor [1 - h eta / m] is: it
    returns the positions of the recurrence run with the matrix built from
    that very drag factor, nothing clamped and nothing replaced. *)
Theorem simulate_never_raises (params : Params) :
  valid params ->
  simulate params
  = Ok (positions
          (block eye2 (mscale (h params) eye2) zeros22
                 (mscale (1 - h params * eta params / m params) eye2))
          (dynamics_b params)
          (p0 params, v0 params) (T params)).
Proof.
  intros Hv. apply simulate_spec, compute_dynamics_ok, valid_mass, Hv.
Qed.

Lemma simulate_never_raises_witness :
  valid shot_drag /\
  ~ (-(1) <= drag_factor shot_drag <= 1) /\
  simulate shot_drag
  = Ok (positions (dynamics_A shot_drag) (dynamics_b shot_drag)
          (p0 shot_drag, v0 shot_drag) (T shot_drag)).
Proof.
  assert (Hv : valid shot_drag) by valid_sample.
  split; [exact Hv | split].
  - intros [H _]. vm_compute in H. apply H. reflexivity.
  - exact (simulate_never_raises Hv).
Defined.

(** The unstable sample, run: drag factor [-2], the positions swing with
    growing amplitude and are returned as computed. *)
Example simulate_unstable_shot :
  simulate shot_drag = Ok [(0, 0); (3, 4); (0, -(14)); (9, 12)].
Proof. vm_compute. reflexivity. Qed.



(** C4 (recurrence consistency), amended.  In exact arithmetic, for every
    valid parameter record and every [t] in [1..T]: the state of the loop
    of [simulate] after [t] passes is one step [A x + b] from the state
    after [t - 1] passes, the points [trajectory[t - 1]] and
    [trajectory[t]] are the positions of these two states, the state after
    [t] passes is [t] applications of the recurrence to [[p0; v0]], and it
    equals the closed form [F_t x0 + j_t] entry by entry. *)
Theorem simulate_recurrence_exact (params : Params) (t : nat) :
  valid params ->
  (1 <= t <= T params)%nat ->
  exists A b trajectory x_prev x_t tr_prev tr_t j_t,
    compute_dynamics params = Ok (A, b) /\
    simulate params = Ok trajectory /\
    simulate_state (with_T params (t - 1)) = Ok (x_prev, tr_prev) /\
    simulate_state (with_T params t) = Ok (x_t, tr_t) /\
    nth_error trajectory (t - 1) = Some (top2 x_prev) /\
    nth_error trajectory t = Some (top2 x_t) /\
    x_t = vadd4 (matvec A x_prev) b /\
    x_t = recurrence A b (concatenate (p0 params) (v0 params)) t /\
    j_of A b t = PyArr j_t /\
    veq4 x_t
      (vadd4 (matvec (F_of A t) (concatenate (p0 params) (v0 params))) j_t).
Proof.
  intros Hv [Ht1 Ht2]. pose proof (valid_mass Hv) as Hm.
  pose proof (compute_dynamics_ok _ Hm) as HD.
  destruct t as [|n]; [lia|].
  exists (dynamics_A params), (dynamics_b params).
  eexists. eexists. eexists. eexists. eexists.
  exists (j_arr (dynamics_A params) (dynamics_b params) n).
  split; [exact HD|].
  split; [apply (simulate_spec _ HD)|].
  split; [apply (simulate_state_spec (with_T params (S n - 1))); exact HD|].
  split; [apply (simulate_state_spec (with_T params (S n))); exact HD|].
  cbn [with_T T p0 v0].
  replace (S n - 1)%nat with n by lia.
  split; [apply positions_nth; lia|].
  split; [apply positions_nth; lia|].
  split; [reflexivity|].
  split; [reflexivity|].
  split; [apply j_of_S|].
  symmetry. apply closed_form_recurrence.
Qed.

Lemma simulate_recurrence_exact_witness :
  valid shot /\ (1 <= 2 <= T shot)%nat /\
  exists A b trajectory x_prev x_t tr_prev tr_t j_t,
    compute_dynamics shot = Ok (A, b) /\
    simulate shot = Ok trajectory /\
    simulate_state (with_T shot 1) = Ok (x_prev, tr_prev) /\
    simulate_state (with_T shot 2) = Ok (x_t, tr_t) /\
    nth_error trajectory 1 = Some (top2 x_prev) /\
    nth_error trajectory 2 = Some (top2 x_t) /\
    x_t = vadd4 (matvec A x_prev) b /\
    x_t = recurrence A b (concatenate (0, 0) (3, 4)) 2 /\
    j_of A b 2 = PyArr j_t /\
    veq4 x_t
      (vadd4 (matvec (F_of A 2) (concatenate (0, 0) (3, 4))) j_t).
Proof.
  assert (Hv : valid shot) by valid_sample.
  assert (Ht : (1 <= 2 <= T shot)%nat) by (cbn; lia).
  split; [exact Hv | split; [exact Ht|]].
  exact (simulate_recurrence_exact Hv Ht).
Defined.

(** C4, as worded, fails on the binary64 engine: the loop and the closed
    form round differently.  With [eta = 1 - 2^-41], [m = 0.5], [h = 1],
    [T = 2] and [v0 = (1 + 2^-20, 0)] the drag factor is [-1 + 2^-40]; the
    loop rounds the velocity after one step to [-1 - 2^-20 + 2^-40] and
    reaches [x = 2^-40], the closed form multiplies [C = 2^-40 I] by [v0]
    and gives [2^-40 + 2^-60]: a relative difference of [2^-20], above
    1e-9.  With [h = 1] every product of this run is exact or alone in its
    dot product, so fusing multiply and add would change nothing. *)
Lemma closed_form_drifts_in_binary64 : ~ F64.closed_form_claim.
Proof.
  intros H.
  assert (Hv : F64.valid F64.nearly_reversed).
  { unfold F64.valid. cbn. repeat split. lia. }
  assert (Ht : (1 <= 2 <= F64.T F64.nearly_reversed)%nat) by (cbn; lia).
  specialize (H F64.nearly_reversed 2%nat Hv Ht).
  vm_compute in H. discriminate.
Qed.

(** The two numbers of that record: the loop, then the closed form. *)
Example nearly_reversed_trace :
  F64.closed_form_trace F64.nearly_reversed 2 = F64.nearly_reversed_expected.
Proof. vm_compute. reflexivity. Qed.

(** C1 (inversion round trip), amended.  In exact arithmetic, for every
    valid parameter record and every target for which the sensitivity
    block [C] has a nonzero determinant, the solver returns a velocity, and
    [simulate] run with that velocity ends, at index [T], on the target,
    entry by entry. *)
Theorem inversion_round_trip_exact
        (params : Params) (target : vec2) (C : mat2) :
  valid params ->
  sensitivity params = Ok C ->
  ~ det2 C == 0 ->
  exists v trajectory hit,
    calculate_optimal_v0 params target = Ok v /\
    simulate (with_v0 params v) = Ok trajectory /\
    nth_error trajectory (T params) = Some hit /\
    veq2 hit target.
Proof.
  intros Hv HC Hdet. pose proof (valid_mass Hv) as Hm.
  destruct Hv as (_ & _ & HT & _).
  rewrite (sensitivity_ok _ Hm) in HC. injection HC as <-.
  destruct (T params) as [|n] eqn:ET; [lia|].
  destruct (calculate_optimal_v0_cases params target Hm ET) as [_ Hsolve].
  destruct (Hsolve Hdet) as (Cinv & Hinv & Hv0).
  destruct (inv_ok Hdet) as (Cinv' & Hinv' & Hright).
  rewrite Hinv in Hinv'. injection Hinv' as <-.
  set (A := dynamics_A params) in *.
  set (b := dynamics_b params) in *.
  set (d := vadd (matvec2 (ul (matrix_power A (S n))) (p0 params))
                 (top2 (j_arr A b n))) in *.
  set (v := matvec2 Cinv (vsub target d)) in *.
  assert (Hhit : veq2 (top2 (recurrence A b (p0 params, v) (S n))) target).
  { rewrite <- closed_form_recurrence.
    change (p0 params, v) with (concatenate (p0 params) v).
    rewrite final_position_split. fold d. unfold v.
    rewrite Hright. apply vadd_vsub_cancel. }
  exists v. eexists. eexists.
  split; [exact Hv0|].
  split; [apply (simulate_spec (with_v0 params v)), compute_dynamics_ok, Hm|].
  cbn [with_v0 T p0 v0]. rewrite ET.
  split; [apply positions_nth; lia | exact Hhit].
Qed.

Lemma inversion_round_trip_exact_witness :
  valid shot /\
  sensitivity shot = Ok (ur (matrix_power (dynamics_A shot) 2)) /\
  ~ det2 (ur (matrix_power (dynamics_A shot) 2)) == 0 /\
  exists v trajectory hit,
    calculate_optimal_v0 shot (5, 5) = Ok v /\
    simulate (with_v0 shot v) = Ok trajectory /\
    nth_error trajectory 2 = Some hit /\
    veq2 hit (5, 5).
Proof.
  assert (Hv : valid shot) by valid_sample.
  assert (HC : sensitivity shot = Ok (ur (matrix_power (dynamics_A shot) 2)))
    by reflexivity.
  assert (Hdet : ~ det2 (ur (matrix_power (dynamics_A shot) 2)) == 0)
    by (vm_compute; discriminate).
  split; [exact Hv | split; [exact HC | split; [exact Hdet|]]].
  exact (inversion_round_trip_exact (5, 5) Hv HC Hdet).
Defined.

(** C1, as worded, fails on the binary64 engine: nothing keeps the solver
    away from a nearly singular [C].  With [eta = 1 - 2^-51], [m = 0.5],
    [h = 1] and [T = 2] the record is valid, the drag factor is
    [-1 + 2^-50] and [C = 2^-50 I], its determinant not zero.  For the
    target [(1.1, 0)] the solver returns [v0x = 1.1 * 2^50]
    (1238489897526886.5); re-simulated, the velocity after one step rounds
    to [-(v0x - 1)], and the trajectory ends at [x = 1.0]: off the target
    by 0.1.  With [h = 1] every product of this run is exact or alone in
    its dot product, so fusing multiply and add would change nothing. *)
Lemma round_trip_misses_in_binary64 : ~ F64.round_trip_claim.
Proof.
  intros H.
  assert (Hv : F64.valid F64.nearly_singular).
  { unfold F64.valid. cbn. repeat split. lia. }
  assert (Hi : F64.invertible F64.nearly_singular = true)
    by (vm_compute; reflexivity).
  specialize (H F64.nearly_singular F64.target_near Hv Hi).
  vm_compute in H. discriminate.
Qed.

(** The two numbers of that record: the solved [v0x], then the [x] the
    trajectory ends on. *)
Example nearly_singular_trace :
  F64.round_trip_trace F64.nearly_singular F64.target_near
  = F64.nearly_singular_expected.
Proof. vm_compute. reflexivity. Qed.

(** On the scenario of the design ([eta = 0], [m = 1], [h = 0.1],
    [T = 10], target [(5, 5)]) the binary64 engine does end within 1e-6 of
    the target. *)
Example scenario_round_trip :
  F64.round_trip_within F64.tol_abs F64.scenario F64.target_scenario = true.
Proof. vm_compute. reflexivity. Qed.

(** Rounding also moves the border of the unreachable records: with
    [h = 3], [eta = 0.6666666666666666] and [m = 1] the drag factor rounds
    to [-1], and for [T = 2] the binary64 solver raises. *)
Example rounded_bounce_raises :
  F64.calculate_optimal_v0 F64.rounded_bounce F64.target_scenario
  = Raise ValueError.
Proof. vm_compute. reflexivity. Qed.

(** A family of valid records whose sensitivity block is [hh I] after one
    step: its determinant [hh^2] is as small as one likes. *)
Lemma one_step_sensitivity (hh : Q) :
  let params := mkParams (0, 0) (0, 0) (0, 0) 0 1 (0, 0) hh 1 None in
  exists C,
    sensitivity params = Ok C /\
    det2 C == hh * hh /\
    (~ hh == 0 -> exists v, calculate_optimal_v0 params (1, 1) = Ok v).
Proof.
  intros params.
  assert (Hm : ~ m params == 0) by (cbn; discriminate).
  exists (ur (matrix_power (dynamics_A params) 1)).
  assert (Hdet : det2 (ur (matrix_power (dynamics_A params) 1)) == hh * hh).
  { apply det2_scaled_eye. unfold params, dynamics_A. cbn [h matrix_power].
    np_ring. }
  split; [apply (sensitivity_ok _ Hm)|]. split; [exact Hdet|].
  intros Hh.
  destruct (calculate_optimal_v0_cases params (1, 1) Hm eq_refl) as [_ Hsolve].
  destruct Hsolve as (Cinv & _ & Hv).
  - rewrite Hdet. intros E. apply Hh.
    destruct (Qmult_integral _ _ E); assumption.
  - eexists. exact Hv.
Qed.

(** C3, as worded, fails: no positive tolerance on the determinant of [C]
    is enforced.  Whatever the tolerance, a valid record with a one-step
    horizon and a small enough time step has [0 < det C < tol], and the
    solver returns a velocity for it instead of raising. *)
Lemma tolerance_not_enforced : ~ exists tol, 0 < tol /\ raises_below tol.
Proof.
  intros (tol & Htol & Hraise).
  set (hh := if Qlt_le_dec tol 1 then tol * (1 # 2) else 1 # 2).
  assert (Hh : 0 < hh /\ hh * hh < tol).
  { unfold hh. destruct (Qlt_le_dec tol 1) as [Hlt|Hge].
    - split; [lra | nra].
    - split; [reflexivity|].
      apply Qlt_le_trans with (y := 1); [reflexivity | exact Hge]. }
  destruct Hh as [Hpos Hsmall].
  destruct (one_step_sensitivity hh) as (C & HC & Hdet & Hsolve).
  destruct Hsolve as [v Hv].
  - intros E. rewrite E in Hpos. discriminate.
  - rewrite (Hraise _ (1, 1) C) in Hv; [discriminate | | exact HC |].
    + unfold valid; cbn. repeat split; try assumption; try reflexivity.
      discriminate.
    + rewrite Hdet, Qabs_pos; [exact Hsmall | nra].
Qed.

(** The same on one record the input form accepts: [h = 0.001], [T = 1];
    the determinant of [C] is [1e-6] and a velocity comes back. *)
Example fine_step_is_solved :
  exists C v,
    sensitivity shot_fine = Ok C /\
    det2 C == 1 # 1000000 /\
    calculate_optimal_v0 shot_fine (1, 1) = Ok v /\
    veq2 v (1000, 1000).
Proof.
  eexists. eexists. split; [reflexivity|]. split; [reflexivity|].
  split; [reflexivity|]. split; reflexivity.
Qed.

(** C3 (unreachable target), amended.  For every valid parameter record
    the sensitivity block [C] is computed, and the solver raises its
    [ValueError] exactly when the determinant of [C] is zero; on every
    other [C], however small its determinant, it returns a velocity. *)
Theorem unreachable_iff_singular (params : Params) (target : vec2) :
  valid params ->
  exists C,
    sensitivity params = Ok C /\
    (det2 C == 0 <->
     calculate_optimal_v0 params target = Raise ValueError) /\
    (~ det2 C == 0 <->
     exists v, calculate_optimal_v0 params target = Ok v).
Proof.
  intros Hv. pose proof (valid_mass Hv) as Hm.
  destruct Hv as (_ & _ & HT & _).
  exists (ur (matrix_power (dynamics_A params) (T params))).
  split; [apply (sensitivity_ok _ Hm)|].
  destruct (T params) as [|n] eqn:ET; [lia|].
  destruct (calculate_optimal_v0_cases params target Hm ET) as [Hsing Hreg].
  destruct (Qeq_dec (det2 (ur (matrix_power (dynamics_A params) (S n)))) 0)
    as [E|E].
  - split; split; intros H.
    + exact (Hsing E).
    + exact E.
    + contradiction.
    + destruct H as [v Hv]. rewrite (Hsing E) in Hv. discriminate.
  - destruct (Hreg E) as (Cinv & _ & Hv).
    split; split; intros H.
    + contradiction.
    + rewrite Hv in H. discriminate.
    + eexists. exact Hv.
    + exact E.
Qed.

Lemma unreachable_iff_singular_witness :
  valid shot_singular /\
  exists C,
    sensitivity shot_singular = Ok C /\
    (det2 C == 0 <->
     calculate_optimal_v0 shot_singular (5, 5) = Raise ValueError) /\
    (~ det2 C == 0 <->
     exists v, calculate_optimal_v0 shot_singular (5, 5) = Ok v).
Proof.
  assert (Hv : valid shot_singular) by valid_sample.
  split; [exact Hv | exact (unreachable_iff_singular (5, 5) Hv)].
Defined.

(** The singular sample: drag factor [-1] and two steps bring the
    projectile back over its start whatever the velocity. *)
Example singular_shot_raises :
  sensitivity shot_singular = Ok zeros22 /\
  calculate_optimal_v0 shot_singular (5, 5) = Raise ValueError.
Proof. split; reflexivity. Qed.

(** C5 (builder).  For every record with [m > 0] and [h > 0],
    [compute_dynamics] returns, without raising, a pair whose sixteen and
    four entries are those of the design's
    [A = [[I, h I], [0, (1 - h eta / m) I]]] and
    [b = [0, h (g + (eta / m) w)]].  The result is a function of the
    record alone: the embedding has no state for it to read or change. *)
Theorem compute_dynamics_closed_form (params : Params) :
  0 < m params ->
  0 < h params ->
  exists A b,
    compute_dynamics params = Ok (A, b) /\
    Forall2 (Forall2 Qeq) (tolist A) (design_A params) /\
    Forall2 Qeq (tolist4 b) (design_b params).
Proof.
  intros Hm Hh.
  exists (dynamics_A params), (dynamics_b params).
  split.
  - apply compute_dynamics_ok. intros E. rewrite E in Hm. discriminate.
  - unfold design_A, design_b, dynamics_A, dynamics_b, drag_factor, tolist,
      tolist4, Qdiv. destruct (g params), (w params).
    np_unfold. cbn [fst snd ul ur ll lr].
    split; repeat (first [apply Forall2_nil | apply Forall2_cons]); ring.
Qed.

Lemma compute_dynamics_closed_form_witness :
  0 < m shot_drag /\ 0 < h shot_drag /\
  exists A b,
    compute_dynamics shot_drag = Ok (A, b) /\
    Forall2 (Forall2 Qeq) (tolist A)
      [ [1; 0; 1; 0]; [0; 1; 0; 1]; [0; 0; 1 - 1 * 3 / 1; 0];
        [0; 0; 0; 1 - 1 * 3 / 1] ] /\
    Forall2 Qeq (tolist4 b) (design_b shot_drag).
Proof.
  assert (Hm : 0 < m shot_drag) by reflexivity.
  assert (Hh : 0 < h shot_drag) by reflexivity.
  split; [exact Hm | split; [exact Hh|]].
  exact (compute_dynamics_closed_form shot_drag Hm Hh).
Defined.

(** C9 (registry ordering).  In every registry state [add_simulation]
    puts the record at the end and leaves the earlier entries as they
    were; three records added to a fresh or to any registry are listed in
    the order they were added; adding a record twice lists it twice; the
    list grows by one with every addition; after [clear_simulations] the
    list is empty. *)
Theorem registry_ordering :
  (forall self params,
      simulations (add_simulation self params) = simulations self ++ [params]) /\
  (forall self params,
      firstn (length (simulations self))
             (simulations (add_simulation self params))
      = simulations self) /\
  (forall colors A B C,
      simulations
        (add_simulation (add_simulation (add_simulation (init colors) A) B) C)
      = [A; B; C]) /\
  (forall self A B C,
      simulations (add_simulation (add_simulation (add_simulation self A) B) C)
      = simulations self ++ [A; B; C]) /\
  (forall self params,
      simulations (add_simulation (add_simulation self params) params)
      = simulations self ++ [params; params]) /\
  (forall self params,
      length (simulations (add_simulation self params))
      = S (length (simulations self))) /\
  (forall self, simulations (clear_simulations self) = []) /\
  (forall self params,
      simulations (add_simulation (clear_simulations self) params) = [params]).
Proof.
  repeat match goal with |- _ /\ _ => split end; intros; cbn.
  - reflexivity.
  - rewrite firstn_app, Nat.sub_diag, firstn_all. apply app_nil_r.
  - reflexivity.
  - rewrite <- !app_assoc. reflexivity.
  - rewrite <- app_assoc. reflexivity.
  - rewrite length_app. cbn. lia.
  - reflexivity.
  - reflexivity.
Qed.

(** C10 (drag-free solvability).  For every record with [eta = 0],
    [m > 0], [h > 0] and [T >= 1]: the drag factor is 1; the sensitivity
    block [C = F[:2, 2:]] of [F = A^T] is [T h] times the identity; its
    determinant is not zero; and the solver returns a velocity for every
    target. *)
Theorem drag_free_solvable (params : Params) (target : vec2) :
  eta params == 0 ->
  0 < m params ->
  0 < h params ->
  (1 <= T params)%nat ->
  exists A b,
    compute_dynamics params = Ok (A, b) /\
    drag_factor params == 1 /\
    meq2 (lr A) eye2 /\
    meq2 (ur (matrix_power A (T params)))
         (mscale (inject_Z (Z.of_nat (T params)) * h params) eye2) /\
    ~ det2 (ur (matrix_power A (T params))) == 0 /\
    exists v, calculate_optimal_v0 params target = Ok v.
Proof.
  intros Heta Hmass Hh HT.
  assert (Hm : ~ m params == 0) by (intros E; rewrite E in Hmass; discriminate).
  assert (Hd : drag_factor params == 1).
  { unfold drag_factor. rewrite Heta. field. exact Hm. }
  assert (HC : meq2 (ur (matrix_power (dynamics_A params) (T params)))
                 (mscale (inject_Z (Z.of_nat (T params)) * h params) eye2)).
  { unfold dynamics_A.
    destruct (matrix_power_blocks (h params) (drag_factor params) (T params))
      as (_ & Hur & _).
    rewrite Hur. cbn [ur].
    pose proof (reach_drag_free (h params) (T params) Hd) as Hr.
    np_unfold. cbn [fst snd]. np_split; rewrite Hr; reflexivity. }
  assert (Hdet : ~ det2 (ur (matrix_power (dynamics_A params) (T params))) == 0).
  { rewrite (det2_scaled_eye HC). intros E.
    assert (Hpos : 0 < inject_Z (Z.of_nat (T params)) * h params).
    { apply Qmult_lt_0_compat; [|exact Hh].
      change 0 with (inject_Z 0). rewrite <- Zlt_Qlt. lia. }
    destruct (Qmult_integral _ _ E) as [E'|E']; rewrite E' in Hpos;
      discriminate. }
  exists (dynamics_A params), (dynamics_b params).
  split; [apply compute_dynamics_ok, Hm|].
  split; [exact Hd|].
  split; [unfold dynamics_A; cbn [lr]; np_unfold; cbn [fst snd];
          np_split; rewrite Hd; ring|].
  split; [exact HC|]. split; [exact Hdet|].
  destruct (T params) as [|n] eqn:ET; [lia|].
  destruct (calculate_optimal_v0_cases params target Hm ET) as [_ Hreg].
  destruct (Hreg Hdet) as (Cinv & _ & Hv). eexists. exact Hv.
Qed.

Lemma drag_free_solvable_witness :
  eta shot == 0 /\ 0 < m shot /\ 0 < h shot /\ (1 <= T shot)%nat /\
  exists A b,
    compute_dynamics shot = Ok (A, b) /\
    drag_factor shot == 1 /\
    meq2 (lr A) eye2 /\
    meq2 (ur (matrix_power A 2)) (mscale (inject_Z 2 * 1) eye2) /\
    ~ det2 (ur (matrix_power A 2)) == 0 /\
    exists v, calculate_optimal_v0 shot (5, 5) = Ok v.
Proof.
  assert (He : eta shot == 0) by reflexivity.
  assert (Hm : 0 < m shot) by reflexivity.
  assert (Hh : 0 < h shot) by reflexivity.
  assert (HT : (1 <= T shot)%nat) by (cbn; lia).
  split; [exact He | split; [exact Hm | split; [exact Hh | split; [exact HT|]]]].
  exact (drag_free_solvable shot (5, 5) He Hm Hh HT).
Defined.

(** ** Further properties of the engine *)

Lemma compute_dynamics_massless (params : Params) :
  m params == 0 -> compute_dynamics params = Raise ZeroDivisionError.
Proof.
  intros Hm. unfold compute_dynamics, truediv.
  apply Qeq_bool_iff in Hm. rewrite Hm. reflexivity.
Qed.

(** X1 (zero mass).  A record whose mass is zero makes [compute_dynamics]
    raise [ZeroDivisionError], and [simulate] and [calculate_optimal_v0]
    pass that exception on: the solver's handler does not turn it into its
    own [ValueError]. *)
Theorem zero_mass_raises (params : Params) (target : vec2) :
  m params == 0 ->
  compute_dynamics params = Raise ZeroDivisionError /\
  simulate params = Raise ZeroDivisionError /\
  calculate_optimal_v0 params target = Raise ZeroDivisionError.
Proof.
  intros Hm. pose proof (compute_dynamics_massless _ Hm) as HD.
  unfold simulate, simulate_state, calculate_optimal_v0. rewrite HD.
  repeat split.
Qed.

Lemma zero_mass_raises_witness :
  m shot_massless == 0 /\
  compute_dynamics shot_massless = Raise ZeroDivisionError /\
  simulate shot_massless = Raise ZeroDivisionError /\
  calculate_optimal_v0 shot_massless (5, 5) = Raise ZeroDivisionError.
Proof.
  assert (Hm : m shot_massless == 0) by reflexivity.
  split; [exact Hm | exact (zero_mass_raises shot_massless (5, 5) Hm)].
Defined.

(** X2 (simulate and the mass).  The mass is all [simulate] depends on to
    return: it raises exactly when the mass is zero, and returns a
    trajectory for every other record, whatever its step, drag and
    horizon, the horizon 0 included. *)
Theorem simulate_raises_iff_massless (params : Params) :
  (m params == 0 <-> simulate params = Raise ZeroDivisionError) /\
  (~ m params == 0 <->
   exists trajectory,
     simulate params = Ok trajectory /\
     length trajectory = (T params + 1)%nat).
Proof.
  destruct (Qeq_dec (m params) 0) as [E|E].
  - pose proof (compute_dynamics_massless _ E) as HD.
    assert (HS : simulate params = Raise ZeroDivisionError).
    { unfold simulate, simulate_state. rewrite HD. reflexivity. }
    split; split; intros H.
    + exact HS.
    + exact E.
    + contradiction.
    + destruct H as (tr & Htr & _). rewrite HS in Htr. discriminate.
  - pose proof (simulate_spec _ (compute_dynamics_ok _ E)) as HS.
    split; split; intros H.
    + contradiction.
    + rewrite HS in H. discriminate.
    + eexists. split; [exact HS | apply positions_length].
    + exact E.
Qed.

(** X3 (horizon zero).  With [T = 0] and a nonzero mass, [simulate]
    returns the single point [p0], and [calculate_optimal_v0] raises
    [TypeError]: Python's [sum] of no terms is the int 0, which cannot be
    sliced.  This happens before the guarded inversion, so it is not
    reported as an unreachable target. *)
Theorem horizon_zero (params : Params) (target : vec2) :
  T params = 0%nat ->
  ~ m params == 0 ->
  simulate params = Ok [p0 params] /\
  calculate_optimal_v0 params target = Raise TypeError.
Proof.
  intros HT Hm. split.
  - rewrite (simulate_spec _ (compute_dynamics_ok _ Hm)), HT. reflexivity.
  - unfold calculate_optimal_v0. rewrite compute_dynamics_ok by assumption.
    cbn [bind]. rewrite HT. reflexivity.
Qed.

Lemma horizon_zero_witness :
  T shot_still = 0%nat /\ ~ m shot_still == 0 /\
  simulate shot_still = Ok [(1, 2)] /\
  calculate_optimal_v0 shot_still (5, 5) = Raise TypeError.
Proof.
  assert (HT : T shot_still = 0%nat) by reflexivity.
  assert (Hm : ~ m shot_still == 0) by (cbn; discriminate).
  split; [exact HT | split; [exact Hm|]].
  exact (horizon_zero shot_still (5, 5) HT Hm).
Defined.

(** X4 (what the solver can raise).  Every call of
    [calculate_optimal_v0] ends in one of four ways: a velocity; a
    [ZeroDivisionError], with mass zero; a [TypeError], with horizon 0; a
    [ValueError], with a positive horizon and a singular block [C].  The
    [LinAlgError] of numpy never leaves it. *)
Theorem solver_outcomes (params : Params) (target : vec2) :
  (exists v, calculate_optimal_v0 params target = Ok v) \/
  (calculate_optimal_v0 params target = Raise ZeroDivisionError /\
   m params == 0) \/
  (calculate_optimal_v0 params target = Raise TypeError /\
   T params = 0%nat) \/
  (calculate_optimal_v0 params target = Raise ValueError /\
   (1 <= T params)%nat /\
   det2 (ur (matrix_power (dynamics_A params) (T params))) == 0).
Proof.
  destruct (Qeq_dec (m params) 0) as [Em|Em].
  - right. left. split; [|exact Em].
    unfold calculate_optimal_v0.
    rewrite (compute_dynamics_massless _ Em). reflexivity.
  - destruct (T params) as [|n] eqn:ET.
    + right. right. left. split; [|reflexivity].
      unfold calculate_optimal_v0.
      rewrite compute_dynamics_ok by assumption.
      cbn [bind]. rewrite ET. reflexivity.
    + destruct (calculate_optimal_v0_cases params target Em ET)
        as [Hsing Hreg].
      destruct (Qeq_dec (det2 (ur (matrix_power (dynamics_A params) (S n)))) 0)
        as [E|E].
      * right. right. right. split; [exact (Hsing E)|]. split; [lia | exact E].
      * left. destruct (Hreg E) as (Cinv & _ & Hv). eexists. exact Hv.
Qed.

(** *** The sensitivity block is a geometric sum *)

Lemma reach_geometric (hh d : Q) (n : nat) :
  reach hh d n * (1 - d) == hh * (1 - decay d n).
Proof.
  induction n as [|n IH]; cbn [reach decay].
  - ring.
  - setoid_replace ((hh + reach hh d n * d) * (1 - d))
      with (hh * (1 - d) + reach hh d n * (1 - d) * d) by ring.
    rewrite IH. ring.
Qed.

Lemma decay_proper (d1 d2 : Q) (n : nat) :
  d1 == d2 -> decay d1 n == decay d2 n.
Proof.
  intros Hd. induction n as [|n IH]; cbn [decay].
  - reflexivity.
  - rewrite IH, Hd. reflexivity.
Qed.

Lemma decay_abs (d : Q) (n : nat) : Qabs (decay d n) == decay (Qabs d) n.
Proof.
  induction n as [|n IH]; cbn [decay].
  - reflexivity.
  - rewrite Qabs_Qmult, IH. reflexivity.
Qed.

Lemma decay_below (x : Q) (n : nat) :
  0 <= x -> x < 1 -> 0 <= decay x n /\ decay x n <= 1 /\ decay x (S n) < 1.
Proof.
  intros H0 H1. induction n as [|n (IH0 & IH1 & IH2)]; cbn [decay] in *.
  - split; [discriminate|]. split; [discriminate|]. lra.
  - split; [nra|]. split; [lra|]. nra.
Qed.

Lemma decay_above (x : Q) (n : nat) : 1 < x -> 1 < decay x (S n).
Proof.
  intros H1. induction n as [|n IH]; cbn [decay] in *.
  - lra.
  - nra.
Qed.

Lemma decay_one_abs (d : Q) (n : nat) :
  decay d (S n) == 1 -> Qabs d == 1.
Proof.
  intros H.
  assert (Ha : decay (Qabs d) (S n) == 1).
  { rewrite <- decay_abs, H. reflexivity. }
  pose proof (Qabs_nonneg d) as H0.
  destruct (Q_dec (Qabs d) 1) as [[Hlt|Hgt]|Heq].
  - destruct (decay_below n H0 Hlt) as (_ & _ & Hb). rewrite Ha in Hb.
    discriminate.
  - pose proof (decay_above n Hgt) as Hb. rewrite Ha in Hb. discriminate.
  - exact Heq.
Qed.

Lemma decay_minus_one (d : Q) (n : nat) :
  d == -(1) -> decay d n == if Nat.even n then 1 else -(1).
Proof.
  intros Hd. induction n as [|n IH].
  - reflexivity.
  - cbn [decay]. rewrite IH, Hd, Nat.even_succ, <- Nat.negb_even.
    destruct (Nat.even n); reflexivity.
Qed.

(** The sum [h (1 + d + ... + d^(n-1))] vanishes only when the velocity is
    exactly reversed at every step and the steps pair up. *)
Lemma reach_zero_iff (hh d : Q) (n : nat) :
  ~ hh == 0 ->
  (reach hh d (S n) == 0 <-> d == -(1) /\ Nat.even (S n) = true).
Proof.
  intros Hh. pose proof (reach_geometric hh d (S n)) as Hg. split.
  - intros Hr. rewrite Hr in Hg.
    assert (Hdec : decay d (S n) == 1).
    { assert (Hz : hh * (1 - decay d (S n)) == 0) by (rewrite <- Hg; ring).
      destruct (Qmult_integral _ _ Hz) as [E|E]; [contradiction | lra]. }
    pose proof (decay_one_abs Hdec) as Habs.
    assert (Hcases : d == 1 \/ d == -(1)).
    { destruct (Qlt_le_dec d 0) as [Hneg|Hpos].
      - right. rewrite Qabs_neg in Habs by lra. lra.
      - left. rewrite Qabs_pos in Habs by assumption. exact Habs. }
    destruct Hcases as [E|E].
    + exfalso. rewrite (reach_drag_free hh (S n) E) in Hr.
      destruct (Qmult_integral _ _ Hr) as [E'|E']; [|contradiction].
      revert E'. change 0 with (inject_Z 0). rewrite inject_Z_injective. lia.
    + split; [exact E|].
      rewrite (decay_minus_one (S n) E) in Hdec.
      destruct (Nat.even (S n)); [reflexivity | discriminate].
  - intros [E Hev].
    assert (Hdec : decay d (S n) == 1).
    { rewrite (decay_minus_one (S n) E), Hev. reflexivity. }
    rewrite Hdec in Hg. remember (reach hh d (S n)) as r eqn:Er. clear Er.
    assert (H2 : r * 2 == r * (1 - d)) by (rewrite E; ring).
    rewrite Hg in H2. lra.
Qed.

Lemma sensitivity_scalar (params : Params) (n : nat) :
  meq2 (ur (matrix_power (dynamics_A params) n))
       (mscale (reach (h params) (drag_factor params) n) eye2).
Proof.
  unfold dynamics_A.
  destruct (matrix_power_blocks (h params) (drag_factor params) n)
    as (_ & Hur & _).
  exact Hur.
Qed.

Lemma sensitivity_det (params : Params) (n : nat) :
  det2 (ur (matrix_power (dynamics_A params) n))
  == reach (h params) (drag_factor params) n
     * reach (h params) (drag_factor params) n.
Proof. apply det2_scaled_eye, sensitivity_scalar. Qed.

(** X5 (the sensitivity block).  For a nonzero mass, the block [C] the
    solver inverts is a multiple [s I] of the identity, with [s] the
    geometric sum [h (1 + d + ... + d^(T-1))] of the drag factor [d]:
    [s (1 - d) = h (1 - d^T)].  Wind, gravity and the start point do not
    enter it. *)
Theorem sensitivity_is_geometric (params : Params) :
  ~ m params == 0 ->
  exists C s,
    sensitivity params = Ok C /\
    meq2 C (mscale s eye2) /\
    s == reach (h params) (drag_factor params) (T params) /\
    s * (1 - drag_factor params)
    == h params * (1 - decay (drag_factor params) (T params)).
Proof.
  intros Hm.
  exists (ur (matrix_power (dynamics_A params) (T params))).
  exists (reach (h params) (drag_factor params) (T params)).
  split; [apply (sensitivity_ok _ Hm)|].
  split; [apply sensitivity_scalar|].
  split; [reflexivity | apply reach_geometric].
Qed.

Lemma sensitivity_is_geometric_witness :
  ~ m shot_windy == 0 /\
  exists C s,
    sensitivity shot_windy = Ok C /\
    meq2 C (mscale s eye2) /\
    s == reach 1 (1 # 2) 3 /\
    s * (1 - (1 # 2)) == 1 * (1 - decay (1 # 2) 3).
Proof.
  assert (Hm : ~ m shot_windy == 0) by (cbn; discriminate).
  split; [exact Hm|].
  destruct (sensitivity_is_geometric shot_windy Hm)
    as (C & s & H1 & H2 & H3 & H4).
  exists C, s. split; [exact H1|]. split; [exact H2|].
  split; [exact H3 | exact H4].
Defined.

(** X6 (when a target is unreachable).  For [m > 0], [h > 0] and
    [T >= 1], the solver raises its [ValueError] exactly when the drag
    factor is [-1] and the horizon is even: the velocity is reversed at
    every step and the displacements cancel in pairs.  For every other
    drag factor, and for every odd horizon, each target gets a velocity. *)
Theorem unreachable_iff_bounce (params : Params) (target : vec2) :
  0 < m params ->
  0 < h params ->
  (1 <= T params)%nat ->
  (calculate_optimal_v0 params target = Raise ValueError
   <-> drag_factor params == -(1) /\ Nat.even (T params) = true) /\
  ((exists v, calculate_optimal_v0 params target = Ok v)
   <-> ~ (drag_factor params == -(1) /\ Nat.even (T params) = true)).
Proof.
  intros Hmass Hh HT.
  assert (Hm : ~ m params == 0) by (intros E; rewrite E in Hmass; discriminate).
  assert (Hh0 : ~ h params == 0) by (intros E; rewrite E in Hh; discriminate).
  destruct (T params) as [|n] eqn:ET; [lia|].
  destruct (calculate_optimal_v0_cases params target Hm ET) as [Hsing Hreg].
  pose proof (sensitivity_det params (S n)) as Hdet.
  pose proof (reach_zero_iff (drag_factor params) n Hh0) as Hz.
  set (r := reach (h params) (drag_factor params) (S n)) in *.
  assert (Hdz : det2 (ur (matrix_power (dynamics_A params) (S n))) == 0
                <-> r == 0).
  { rewrite Hdet. split; intros E.
    - destruct (Qmult_integral _ _ E); assumption.
    - rewrite E. ring. }
  destruct (Qeq_dec r 0) as [E|E].
  - pose proof (Hsing (proj2 Hdz E)) as Hraise.
    split; split; intros H.
    + apply Hz, E.
    + exact Hraise.
    + destruct H as [v Hv]. rewrite Hraise in Hv. discriminate.
    + exfalso. apply H, Hz, E.
  - assert (Hnd : ~ det2 (ur (matrix_power (dynamics_A params) (S n))) == 0)
      by (intros Hd; apply E, Hdz, Hd).
    destruct (Hreg Hnd) as (Cinv & _ & Hv).
    split; split; intros H.
    + rewrite Hv in H. discriminate.
    + exfalso. apply E, Hz, H.
    + intros Hb. apply E, Hz, Hb.
    + eexists. exact Hv.
Qed.

Lemma unreachable_iff_bounce_witness :
  0 < m shot_singular /\ 0 < h shot_singular /\ (1 <= T shot_singular)%nat /\
  (calculate_optimal_v0 shot_singular (5, 5) = Raise ValueError
   <-> drag_factor shot_singular == -(1) /\ Nat.even 2 = true) /\
  ((exists v, calculate_optimal_v0 shot_singular (5, 5) = Ok v)
   <-> ~ (drag_factor shot_singular == -(1) /\ Nat.even 2 = true)).
Proof.
  assert (Hm : 0 < m shot_singular) by reflexivity.
  assert (Hh : 0 < h shot_singular) by reflexivity.
  assert (HT : (1 <= T shot_singular)%nat) by (cbn; lia).
  split; [exact Hm | split; [exact Hh | split; [exact HT|]]].
  exact (unreachable_iff_bounce shot_singular (5, 5) Hm Hh HT).
Defined.

(** *** The solver's velocity is the only one *)

Lemma inv_both (C : mat2) :
  ~ det2 C == 0 ->
  exists Cinv, inv C = Ok Cinv /\
    (forall y : vec2, veq2 (matvec2 C (matvec2 Cinv y)) y) /\
    (forall y : vec2, veq2 (matvec2 Cinv (matvec2 C y)) y).
Proof.
  intros Hdet. unfold inv.
  destruct (Qeq_bool (det2 C) 0) eqn:E.
  - apply Qeq_bool_iff in E. contradiction.
  - eexists; split; [reflexivity|].
    split; intros y; np_simpl; np_split; field; assumption.
Qed.

Lemma vsub_of_vadd (a c e : vec2) : veq2 (vadd a c) e -> veq2 a (vsub e c).
Proof.
  destruct a, c, e. intros [H1 H2]. np_unfold. cbn [fst snd] in *.
  split; [rewrite <- H1 | rewrite <- H2]; ring.
Qed.

(** The end point at horizon [S n], as the solver sees it: [C v + d]. *)
Lemma end_point_split (A : mat4) (b : vec4) (p v : vec2) (n : nat) :
  veq2 (top2 (recurrence A b (p, v) (S n)))
       (vadd (matvec2 (ur (matrix_power A (S n))) v)
             (vadd (matvec2 (ul (matrix_power A (S n))) p)
                   (top2 (j_arr A b n)))).
Proof.
  rewrite <- closed_form_recurrence.
  change (p, v) with (concatenate p v). apply final_position_split.
Qed.

Lemma solver_solution (params : Params) (target : vec2) (n : nat) :
  ~ m params == 0 ->
  T params = S n ->
  ~ det2 (ur (matrix_power (dynamics_A params) (S n))) == 0 ->
  exists v,
    calculate_optimal_v0 params target = Ok v /\
    forall v',
      veq2 (top2 (recurrence (dynamics_A params) (dynamics_b params)
                    (p0 params, v') (S n))) target
      <-> veq2 v' v.
Proof.
  intros Hm ET Hdet.
  destruct (calculate_optimal_v0_cases params target Hm ET) as [_ Hsolve].
  destruct (Hsolve Hdet) as (Cinv & Hinv & Hv0).
  destruct (inv_both Hdet) as (Cinv' & Hinv' & Hright & Hleft).
  rewrite Hinv in Hinv'. injection Hinv' as <-.
  eexists. split; [exact Hv0|].
  intros v'. rewrite end_point_split. split; intros H.
  - apply vsub_of_vadd in H. rewrite <- H. symmetry. apply Hleft.
  - rewrite H, Hright. apply vadd_vsub_cancel.
Qed.



(** X8 (solve after simulate).  For a valid record with an invertible
    block [C]: asking the solver for the point where the record's own
    trajectory ends gives back the record's own initial velocity, entry by
    entry. *)
Theorem solve_recovers_v0 (params : Params) (C : mat2) :
  valid params ->
  sensitivity params = Ok C ->
  ~ det2 C == 0 ->
  exists trajectory hit v,
    simulate params = Ok trajectory /\
    nth_error trajectory (T params) = Some hit /\
    calculate_optimal_v0 params hit = Ok v /\
    veq2 v (v0 params).
Proof.
  intros Hv HC Hdet. pose proof (valid_mass Hv) as Hm.
  destruct Hv as (_ & _ & HT & _).
  rewrite (sensitivity_ok _ Hm) in HC. injection HC as <-.
  destruct (T params) as [|n] eqn:ET; [lia|].
  set (hit := top2 (recurrence (dynamics_A params) (dynamics_b params)
                      (p0 params, v0 params) (S n))).
  destruct (solver_solution hit Hm ET Hdet) as (v & Hsolve & Huniq).
  eexists. exists hit, v.
  split; [apply (simulate_spec _ (compute_dynamics_ok _ Hm))|].
  rewrite ET. split; [apply positions_nth; lia|].
  split; [exact Hsolve|].
  symmetry. apply Huniq. reflexivity.
Qed.

Lemma solve_recovers_v0_witness :
  valid shot /\
  sensitivity shot = Ok (ur (matrix_power (dynamics_A shot) 2)) /\
  ~ det2 (ur (matrix_power (dynamics_A shot) 2)) == 0 /\
  exists trajectory hit v,
    simulate shot = Ok trajectory /\
    nth_error trajectory 2 = Some hit /\
    calculate_optimal_v0 shot hit = Ok v /\
    veq2 v (3, 4).
Proof.
  assert (Hv : valid shot) by valid_sample.
  assert (HC : sensitivity shot = Ok (ur (matrix_power (dynamics_A shot) 2)))
    by reflexivity.
  assert (Hdet : ~ det2 (ur (matrix_power (dynamics_A shot) 2)) == 0)
    by (vm_compute; discriminate).
  split; [exact Hv | split; [exact HC | split; [exact Hdet|]]].
  exact (solve_recovers_v0 Hv HC Hdet).
Defined.

(** *** Flight without drag *)

Lemma Qnat_S (n : nat) : Qnat (S n) == Qnat n + 1.
Proof.
  unfold Qnat. rewrite Nat2Z.inj_succ. unfold Z.succ.
  rewrite inject_Z_plus. reflexivity.
Qed.

Lemma carried_S (n : nat) : carried (S n) == carried n + Qnat n.
Proof. unfold carried. rewrite Qnat_S. ring. Qed.

Lemma Qnat_pos (n : nat) : (1 <= n)%nat -> 0 < Qnat n.
Proof.
  intros Hn. unfold Qnat. change 0 with (inject_Z 0).
  rewrite <- Zlt_Qlt. lia.
Qed.

Lemma dynamics_drag_free (params : Params) :
  eta params == 0 ->
  ~ m params == 0 ->
  meq4 (dynamics_A params)
       (block eye2 (mscale (h params) eye2) zeros22 eye2) /\
  veq4 (dynamics_b params) (zeros2, vscale (h params) (g params)).
Proof.
  intros Heta Hm.
  assert (Hd : drag_factor params == 1).
  { unfold drag_factor. rewrite Heta. field. exact Hm. }
  assert (Hr : eta params / m params == 0).
  { rewrite Heta. field. exact Hm. }
  unfold dynamics_A, dynamics_b. destruct (g params), (w params).
  np_unfold. cbn [fst snd ul ur ll lr].
  np_split; rewrite ?Hd, ?Hr; ring.
Qed.

(** Position and velocity after [t] drag-free steps. *)
Lemma recurrence_drag_free (params : Params) (v : vec2) (t : nat) :
  eta params == 0 ->
  ~ m params == 0 ->
  veq4 (recurrence (dynamics_A params) (dynamics_b params) (p0 params, v) t)
       (free_flight (with_v0 params v) t,
        vadd v (vscale (Qnat t * h params) (g params))).
Proof.
  intros Heta Hm. destruct (dynamics_drag_free params Heta Hm) as [HA Hb].
  induction t as [|t IH].
  - unfold recurrence, free_flight, carried, Qnat. cbn [Nat.iter with_v0 p0 v0 g h].
    destruct (p0 params), v, (g params). np_unfold. cbn [fst snd].
    np_split; cbn; ring.
  - rewrite recurrence_S, IH, HA, Hb.
    unfold free_flight. cbn [with_v0 p0 v0 g h].
    pose proof (Qnat_S t) as HS. pose proof (carried_S t) as HC.
    destruct (p0 params), v, (g params). np_unfold. cbn [fst snd ul ur ll lr].
    np_split; rewrite ?HS, ?HC; ring.
Qed.

(** X9 (flight without drag).  With [eta = 0] and a nonzero mass, the
    point of the trajectory at every index [t <= T] is, entry by entry,
    [p0 + t h v0 + (t (t - 1) / 2) h^2 g]; the wind plays no part. *)
Theorem drag_free_trajectory (params : Params) (t : nat) :
  eta params == 0 ->
  ~ m params == 0 ->
  (t <= T params)%nat ->
  exists trajectory point,
    simulate params = Ok trajectory /\
    nth_error trajectory t = Some point /\
    veq2 point (free_flight params t).
Proof.
  intros Heta Hm Ht. eexists. eexists.
  split; [apply (simulate_spec _ (compute_dynamics_ok _ Hm))|].
  split; [apply positions_nth, Ht|].
  destruct (recurrence_drag_free params (v0 params) t Heta Hm) as [Hp _].
  cbn [fst] in Hp. unfold top2. rewrite Hp.
  destruct params; reflexivity.
Qed.

Lemma drag_free_trajectory_witness :
  eta shot == 0 /\ ~ m shot == 0 /\ (2 <= T shot)%nat /\
  exists trajectory point,
    simulate shot = Ok trajectory /\
    nth_error trajectory 2 = Some point /\
    veq2 point (free_flight shot 2).
Proof.
  assert (He : eta shot == 0) by reflexivity.
  assert (Hm : ~ m shot == 0) by (cbn; discriminate).
  assert (Ht : (2 <= T shot)%nat) by (cbn; lia).
  split; [exact He | split; [exact Hm | split; [exact Ht|]]].
  exact (drag_free_trajectory shot He Hm Ht).
Defined.

(** X10 (the solver without drag).  With [eta = 0], [m > 0], [h > 0] and
    [T >= 1], the velocity [calculate_optimal_v0] returns is, entry by
    entry, [(target - p0) / (T h) - ((T - 1) / 2) h g]. *)
Theorem drag_free_velocity (params : Params) (target : vec2) :
  eta params == 0 ->
  0 < m params ->
  0 < h params ->
  (1 <= T params)%nat ->
  exists v,
    calculate_optimal_v0 params target = Ok v /\
    veq2 v (free_flight_v0 params target).
Proof.
  intros Heta Hmass Hh HT.
  assert (Hm : ~ m params == 0) by (intros E; rewrite E in Hmass; discriminate).
  assert (Hd : drag_factor params == 1).
  { unfold drag_factor. rewrite Heta. field. exact Hm. }
  pose proof (Qnat_pos HT) as Hn.
  assert (Hnh : ~ Qnat (T params) * h params == 0).
  { intros E. destruct (Qmult_integral _ _ E) as [E'|E'];
      [rewrite E' in Hn | rewrite E' in Hh]; discriminate. }
  destruct (T params) as [|n] eqn:ET; [lia|].
  assert (Hdet : ~ det2 (ur (matrix_power (dynamics_A params) (S n))) == 0).
  { rewrite sensitivity_det, (reach_drag_free (h params) (S n) Hd).
    intros E. destruct (Qmult_integral _ _ E); contradiction. }
  destruct (solver_solution target Hm ET Hdet) as (v & Hsolve & Huniq).
  exists v. split; [exact Hsolve|].
  symmetry. apply Huniq.
  destruct (recurrence_drag_free params (free_flight_v0 params target) (S n)
              Heta Hm) as [Hp _].
  cbn [fst] in Hp. unfold top2. rewrite Hp.
  unfold free_flight, free_flight_v0, carried. cbn [with_v0 p0 v0 g h T].
  rewrite ET.
  destruct (p0 params), target, (g params). np_unfold. cbn [fst snd].
  assert (Hh0 : ~ h params == 0) by (intros E; rewrite E in Hh; discriminate).
  assert (Hn0 : ~ Qnat (S n) == 0) by (intros E; rewrite E in Hn; discriminate).
  split; field; split; assumption.
Qed.

Lemma drag_free_velocity_witness :
  eta shot == 0 /\ 0 < m shot /\ 0 < h shot /\ (1 <= T shot)%nat /\
  exists v,
    calculate_optimal_v0 shot (5, 5) = Ok v /\
    veq2 v (free_flight_v0 shot (5, 5)).
Proof.
  assert (He : eta shot == 0) by reflexivity.
  assert (Hm : 0 < m shot) by reflexivity.
  assert (Hh : 0 < h shot) by reflexivity.
  assert (HT : (1 <= T shot)%nat) by (cbn; lia).
  split; [exact He | split; [exact Hm | split; [exact Hh | split; [exact HT|]]]].
  exact (drag_free_velocity shot (5, 5) He Hm Hh HT).
Defined.

(** *** Moving the start point *)

Lemma step_shift (params : Params) (p v delta : vec2) :
  veq4 (step (dynamics_A params) (dynamics_b params) (vadd p delta, v))
       (vadd (fst (step (dynamics_A params) (dynamics_b params) (p, v))) delta,
        snd (step (dynamics_A params) (dynamics_b params) (p, v))).
Proof.
  unfold dynamics_A. generalize (dynamics_b params) as b. intros b.
  generalize (drag_factor params) as d, (h params) as hh. intros d hh.
  np_ring.
Qed.

Lemma recurrence_shift_start (params : Params) (p v delta : vec2) (t : nat) :
  veq4 (recurrence (dynamics_A params) (dynamics_b params) (vadd p delta, v) t)
       (vadd (fst (recurrence (dynamics_A params) (dynamics_b params) (p, v) t))
             delta,
        snd (recurrence (dynamics_A params) (dynamics_b params) (p, v) t)).
Proof.
  induction t as [|t IH].
  - reflexivity.
  - rewrite !recurrence_S, IH.
    destruct (recurrence (dynamics_A params) (dynamics_b params) (p, v) t)
      as [pt vt].
    cbn [fst snd]. apply step_shift.
Qed.

Lemma Forall2_map_same {I B C : Type} (R : B -> C -> Prop)
      (f : I -> B) (k : I -> C) (l : list I) :
  (forall i, R (f i) (k i)) -> Forall2 R (map f l) (map k l).
Proof.
  intros H. induction l as [|i l IH]; cbn; constructor; auto.
Qed.

(** X11 (moving the start).  For a nonzero mass, moving [p0] by a vector
    moves every point of the trajectory by that vector, entry by entry:
    the shape of the flight does not depend on where it starts. *)
Theorem simulate_translation (params : Params) (delta : vec2) :
  ~ m params == 0 ->
  exists trajectory moved,
    simulate params = Ok trajectory /\
    simulate (with_p0 params (vadd (p0 params) delta)) = Ok moved /\
    Forall2 (fun point point' => veq2 point' (vadd point delta))
            trajectory moved.
Proof.
  intros Hm. eexists. eexists.
  split; [apply (simulate_spec _ (compute_dynamics_ok _ Hm))|].
  split; [apply (simulate_spec (with_p0 params (vadd (p0 params) delta))),
          compute_dynamics_ok, Hm|].
  cbn [with_p0 p0 v0 T]. unfold positions.
  apply Forall2_map_same. intros t.
  destruct (recurrence_shift_start params (p0 params) (v0 params) delta t)
    as [Hp _].
  exact Hp.
Qed.

Lemma simulate_translation_witness :
  ~ m shot_windy == 0 /\
  exists trajectory moved,
    simulate shot_windy = Ok trajectory /\
    simulate (with_p0 shot_windy (vadd (p0 shot_windy) (7, 1))) = Ok moved /\
    Forall2 (fun point point' => veq2 point' (vadd point (7, 1)))
            trajectory moved.
Proof.
  assert (Hm : ~ m shot_windy == 0) by (cbn; discriminate).
  split; [exact Hm | exact (simulate_translation shot_windy (7, 1) Hm)].
Defined.

(** X12 (moving start and target together).  For a valid record with an
    invertible block [C], moving [p0] and the target by the same vector
    leaves the velocity the solver returns unchanged, entry by entry. *)
Theorem solver_translation (params : Params) (target delta : vec2) (C : mat2) :
  valid params ->
  sensitivity params = Ok C ->
  ~ det2 C == 0 ->
  exists v v',
    calculate_optimal_v0 params target = Ok v /\
    calculate_optimal_v0 (with_p0 params (vadd (p0 params) delta))
                         (vadd target delta) = Ok v' /\
    veq2 v v'.
Proof.
  intros Hv HC Hdet. pose proof (valid_mass Hv) as Hm.
  destruct Hv as (_ & _ & HT & _).
  rewrite (sensitivity_ok _ Hm) in HC. injection HC as <-.
  destruct (T params) as [|n] eqn:ET; [lia|].
  destruct (solver_solution target Hm ET Hdet) as (v & Hsolve & Huniq).
  set (moved := with_p0 params (vadd (p0 params) delta)).
  destruct (@solver_solution moved (vadd target delta) n Hm ET Hdet)
    as (v' & Hsolve' & Huniq').
  exists v, v'. split; [exact Hsolve|]. split; [exact Hsolve'|].
  apply Huniq'.
  change (dynamics_A moved) with (dynamics_A params).
  change (dynamics_b moved) with (dynamics_b params).
  change (p0 moved) with (vadd (p0 params) delta).
  destruct (recurrence_shift_start params (p0 params) v delta (S n))
    as [Hp _].
  unfold top2. rewrite Hp.
  apply vadd_proper; [|reflexivity].
  apply Huniq. reflexivity.
Qed.

Lemma solver_translation_witness :
  valid shot /\
  sensitivity shot = Ok (ur (matrix_power (dynamics_A shot) 2)) /\
  ~ det2 (ur (matrix_power (dynamics_A shot) 2)) == 0 /\
  exists v v',
    calculate_optimal_v0 shot (5, 5) = Ok v /\
    calculate_optimal_v0 (with_p0 shot (vadd (p0 shot) (7, 1)))
                         (vadd (5, 5) (7, 1)) = Ok v' /\
    veq2 v v'.
Proof.
  assert (Hv : valid shot) by valid_sample.
  assert (HC : sensitivity shot = Ok (ur (matrix_power (dynamics_A shot) 2)))
    by reflexivity.
  assert (Hdet : ~ det2 (ur (matrix_power (dynamics_A shot) 2)) == 0)
    by (vm_compute; discriminate).
  split; [exact Hv | split; [exact HC | split; [exact Hdet|]]].
  exact (solver_translation (5, 5) (7, 1) Hv HC Hdet).
Defined.

(** X13 (the end point is affine in the velocity).  For a nonzero mass,
    the last point of the trajectory is the last point of the same shot
    fired with zero velocity, plus the initial velocity scaled by the
    geometric sum [h (1 + d + ... + d^(T-1))]. *)
Theorem end_point_affine (params : Params) :
  ~ m params == 0 ->
  exists trajectory rest hit drift,
    simulate params = Ok trajectory /\
    simulate (with_v0 params zeros2) = Ok rest /\
    nth_error trajectory (T params) = Some hit /\
    nth_error rest (T params) = Some drift /\
    veq2 hit
         (vadd drift
               (vscale (reach (h params) (drag_factor params) (T params))
                       (v0 params))).
Proof.
  intros Hm. eexists. eexists. eexists. eexists.
  split; [apply (simulate_spec _ (compute_dynamics_ok _ Hm))|].
  split; [apply (simulate_spec (with_v0 params zeros2)),
          compute_dynamics_ok, Hm|].
  change (dynamics_A (with_v0 params zeros2)) with (dynamics_A params).
  change (dynamics_b (with_v0 params zeros2)) with (dynamics_b params).
  cbn [with_v0 p0 v0 T].
  split; [apply positions_nth; lia|].
  split; [apply positions_nth; lia|].
  destruct (T params) as [|n].
  - unfold recurrence. simpl Nat.iter. cbn [reach].
    destruct (p0 params), (v0 params). np_unfold. cbn [fst snd].
    split; ring.
  - rewrite !end_point_split.
    pose proof (sensitivity_scalar params (S n)) as HC. rewrite !HC.
    generalize (reach (h params) (drag_factor params) (S n)) as s.
    generalize (vadd (matvec2 (ul (matrix_power (dynamics_A params) (S n)))
                              (p0 params))
                     (top2 (j_arr (dynamics_A params) (dynamics_b params) n)))
      as d.
    clear HC. intros d s. destruct (v0 params). np_ring.
Qed.

Lemma end_point_affine_witness :
  ~ m shot_windy == 0 /\
  exists trajectory rest hit drift,
    simulate shot_windy = Ok trajectory /\
    simulate (with_v0 shot_windy zeros2) = Ok rest /\
    nth_error trajectory 3 = Some hit /\
    nth_error rest 3 = Some drift /\
    veq2 hit (vadd drift (vscale (reach 1 (drag_factor shot_windy) 3) (3, 4))).
Proof.
  assert (Hm : ~ m shot_windy == 0) by (cbn; discriminate).
  split; [exact Hm | exact (end_point_affine shot_windy Hm)].
Defined.

(** ** plot_trajectories *)

Lemma color_at_ok (self : BallisticSimulator) (i : nat) :
  color_cycle self <> [] ->
  exists color,
    color_at self i = Ok color /\
    nth_error (color_cycle self) (i mod length (color_cycle self))
    = Some color.
Proof.
  intros Hne. unfold color_at.
  destruct (color_cycle self) as [|c cs] eqn:E; [contradiction|].
  cbn [length].
  destruct (nth_error (c :: cs) (i mod S (length cs))) as [color|] eqn:En.
  - exists color. split; reflexivity.
  - apply nth_error_None in En. cbn [length] in En.
    pose proof (Nat.mod_upper_bound i (S (length cs))). lia.
Qed.

Lemma color_at_empty (self : BallisticSimulator) (i : nat) :
  color_cycle self = [] -> color_at self i = Raise ZeroDivisionError.
Proof. intros E. unfold color_at. rewrite E. reflexivity. Qed.

Lemma last_row_positions (A : mat4) (b : vec4) (x : vec4) (n : nat) :
  last_row (positions A b x n) = Ok (top2 (recurrence A b x n)).
Proof.
  unfold last_row, positions.
  rewrite Nat.add_1_r, seq_S, map_app, rev_app_distr. reflexivity.
Qed.



Lemma simulate_raise (params : Params) (e : exn) :
  simulate params = Raise e -> e = ZeroDivisionError.
Proof.
  intros H. destruct (Qeq_dec (m params) 0) as [E|E].
  - unfold simulate, simulate_state in H.
    rewrite (compute_dynamics_massless _ E) in H. cbn in H. congruence.
  - rewrite (simulate_spec _ (compute_dynamics_ok _ E)) in H. discriminate.
Qed.

(** The calls a record with a nonzero mass leaves on the axes. *)
Lemma plot_one_ok (self : BallisticSimulator) (i : nat) (params : Params) :
  color_cycle self <> [] ->
  ~ m params == 0 ->
  let trajectory :=
    positions (dynamics_A params) (dynamics_b params)
              (p0 params, v0 params) (T params) in
  exists color end_point max_height,
    nth_error (color_cycle self) (i mod length (color_cycle self))
    = Some color /\
    last_row trajectory = Ok end_point /\
    amax (map snd trajectory) = Ok max_height /\
    plot_one self i params
    = [ Draw (Plot (map fst trajectory) (map snd trajectory) color
                   match label params with
                   | Some s => Label s
                   | None => Numbered (i + 1)
                   end);
        Draw (Scatter end_point color);
        Draw (Annotate end_point color);
        Draw (Axhline max_height color) ].
Proof.
  intros Hne Hm trajectory.
  pose proof (simulate_spec _ (compute_dynamics_ok _ Hm)) as HS.
  destruct (@color_at_ok self i Hne) as (color & Hc & Hnth).
  fold trajectory in HS.
  pose proof (last_row_positions (dynamics_A params) (dynamics_b params)
                (p0 params, v0 params) (T params)) as HL.
  fold trajectory in HL.
  assert (Hmax : exists top, amax (map snd trajectory) = Ok top).
  { unfold trajectory. rewrite positions_unfold. cbn [map].
    eexists. reflexivity. }
  destruct Hmax as (top & Ha).
  exists color, (top2 (recurrence (dynamics_A params) (dynamics_b params)
                         (p0 params, v0 params) (T params))), top.
  split; [exact Hnth|]. split; [exact HL|]. split; [exact Ha|].
  unfold plot_one. rewrite HS, Hc, HL, Ha. reflexivity.
Qed.

Lemma plot_colors_app (l1 l2 : list event) :
  plot_colors (l1 ++ l2) = plot_colors l1 ++ plot_colors l2.
Proof.
  induction l1 as [|[[xs ys c lb|p c|p c|y c]|e] l1 IH]; cbn;
    rewrite ?IH; reflexivity.
Qed.

Lemma shown_errors_app (l1 l2 : list event) :
  shown_errors (l1 ++ l2) = shown_errors l1 ++ shown_errors l2.
Proof.
  induction l1 as [|[d|e] l1 IH]; cbn; rewrite ?IH; reflexivity.
Qed.

Lemma plot_from_colors (self : BallisticSimulator) (sims : list Params) :
  color_cycle self <> [] ->
  Forall (fun params => ~ m params == 0) sims ->
  forall i,
    shown_errors (plot_from self i sims) = [] /\
    map Some (plot_colors (plot_from self i sims))
    = map (fun k => nth_error (color_cycle self)
                      (k mod length (color_cycle self)))
          (seq i (length sims)).
Proof.
  intros Hne Hall. induction Hall as [|params sims Hm Hall IH]; intros i.
  - split; reflexivity.
  - cbn [plot_from length seq map].
    destruct (@plot_one_ok self i params Hne Hm)
      as (color & e & top & Hc & _ & _ & Hone).
    destruct (IH (S i)) as [IHe IHc].
    rewrite shown_errors_app, plot_colors_app, Hone, IHe. cbn.
    split; [reflexivity|]. rewrite IHc, Hc. reflexivity.
Qed.

(** X14 (colours by position).  With a colour cycle that is not empty and
    a registry whose records all have a nonzero mass, [plot_trajectories]
    shows no error and plots one curve per record, in registry order, the
    record at index [k] in the colour at index [k mod len(color_cycle)]. *)
Theorem plot_colors_by_index (self : BallisticSimulator) :
  color_cycle self <> [] ->
  Forall (fun params => ~ m params == 0) (simulations self) ->
  shown_errors (plot_trajectories self) = [] /\
  map Some (plot_colors (plot_trajectories self))
  = map (fun k => nth_error (color_cycle self)
                    (k mod length (color_cycle self)))
        (seq 0 (length (simulations self))).
Proof.
  intros Hne Hall. apply plot_from_colors; assumption.
Qed.

Lemma plot_colors_by_index_witness :
  color_cycle studio <> [] /\
  Forall (fun params => ~ m params == 0) (simulations studio) /\
  shown_errors (plot_trajectories studio) = [] /\
  map Some (plot_colors (plot_trajectories studio))
  = map (fun k => nth_error two_colors (k mod 2)) [0; 1; 2]%nat.
Proof.
  assert (Hne : color_cycle studio <> []) by (cbn; discriminate).
  assert (Hall : Forall (fun params => ~ m params == 0) (simulations studio))
    by (repeat constructor; cbn; discriminate).
  split; [exact Hne | split; [exact Hall|]].
  exact (@plot_colors_by_index studio Hne Hall).
Defined.

(** X15 (no colours, no curves).  With an empty colour cycle nothing is
    drawn: every record of the registry, whatever it holds, ends in the
    error box with a [ZeroDivisionError], and the loop still visits all of
    them. *)
Theorem empty_cycle_draws_nothing (self : BallisticSimulator) :
  color_cycle self = [] ->
  plot_trajectories self
  = map (fun _ => ShowError ZeroDivisionError) (simulations self).
Proof.
  intros Hc. unfold plot_trajectories. generalize 0%nat as i.
  induction (simulations self) as [|params sims IH]; intros i.
  - reflexivity.
  - cbn [plot_from map]. rewrite IH. unfold plot_one.
    destruct (simulate params) as [tr|e] eqn:ES.
    + rewrite (@color_at_empty self i Hc). reflexivity.
    + rewrite (@simulate_raise params e ES). reflexivity.
Qed.

Lemma empty_cycle_draws_nothing_witness :
  color_cycle (mkSimulator [shot; shot_massless] []) = [] /\
  plot_trajectories (mkSimulator [shot; shot_massless] [])
  = [ShowError ZeroDivisionError; ShowError ZeroDivisionError].
Proof.
  assert (Hc : color_cycle (mkSimulator [shot; shot_massless] []) = [])
    by reflexivity.
  split; [exact Hc|].
  exact (@empty_cycle_draws_nothing (mkSimulator [shot; shot_massless] []) Hc).
Defined.


